(** * gowebmail: message ingestion, storage and fanout

    A shallow embedding of the Go sources of gowebmail
    (internal/storage, internal/email, internal/api, internal/smtp)
    and the properties of its specification that concern them.

    Conventions of the embedding:
    - Go [string] is a Rocq [string] (a sequence of bytes); [[]byte] is
      [list Byte.byte];
    - Go [int], [int64] are [Z] (no arithmetic of the modelled code can
      reach the 64-bit bounds, except [strconv] parsing, where the range
      check is written out);
    - a Go slice that the code distinguishes from [nil] (the address
      lists, which are serialised to JSON) is [option (list _)], [None]
      being [nil];
    - [time.Time] is a [Z] (an instant on a linear time line);
    - a SQLite table is the list of its rows in rowid order. *)

From Stdlib Require Import ZArith List String Ascii Bool Lia Sorted Permutation.
From stdpp Require Import base option list gmap strings.

#[local] Set Warnings "-register-all".

Import ListNotations.
Local Open Scope string_scope.
Local Open Scope list_scope.

(* ================================================================= *)
(** ** Strings *)

(** [strings.ToLower] on the ASCII range. *)
Definition ascii_lower (c : ascii) : ascii :=
  let n := nat_of_ascii c in
  if Nat.leb 65 n && Nat.leb n 90 then ascii_of_nat (n + 32) else c.

Fixpoint ToLower (s : string) : string :=
  match s with
  | EmptyString => EmptyString
  | String c s' => String (ascii_lower c) (ToLower s')
  end.

(** White space in the sense of [strings.TrimSpace] (ASCII range). *)
Definition is_space (c : ascii) : bool :=
  let n := nat_of_ascii c in
  Nat.eqb n 32 || (Nat.leb 9 n && Nat.leb n 13).

Fixpoint trim_left (s : string) : string :=
  match s with
  | EmptyString => EmptyString
  | String c s' => if is_space c then trim_left s' else s
  end.

Fixpoint string_rev_acc (s acc : string) : string :=
  match s with
  | EmptyString => acc
  | String c s' => string_rev_acc s' (String c acc)
  end.

Definition string_rev (s : string) : string := string_rev_acc s EmptyString.

Definition TrimSpace (s : string) : string :=
  string_rev (trim_left (string_rev (trim_left s))).

Fixpoint HasPrefix (s prefix : string) : bool :=
  match prefix, s with
  | EmptyString, _ => true
  | String p prefix', String c s' => Ascii.eqb p c && HasPrefix s' prefix'
  | String _ _, EmptyString => false
  end.

(** Equality of two characters up to ASCII case, the comparison of
    SQLite's [LIKE]. *)
Definition eq_ci (c d : ascii) : bool :=
  Ascii.eqb (ascii_lower c) (ascii_lower d).

(** SQLite [text LIKE pattern] without an escape character: [%] matches
    any sequence of characters, [_] matches exactly one character, any
    other character matches itself up to ASCII case. *)
Fixpoint like (p : string) : string -> bool :=
  match p with
  | EmptyString =>
      fun t => match t with EmptyString => true | String _ _ => false end
  | String c p' =>
      if Ascii.eqb c "%" then
        fix star (t : string) : bool :=
          like p' t ||
          match t with EmptyString => false | String _ t' => star t' end
      else if Ascii.eqb c "_" then
        fun t => match t with EmptyString => false | String _ t' => like p' t' end
      else
        fun t =>
          match t with
          | EmptyString => false
          | String d t' => eq_ci c d && like p' t'
          end
  end.

(** [s] is equal to [t] up to ASCII case. *)
Fixpoint string_eq_ci (s t : string) : bool :=
  match s, t with
  | EmptyString, EmptyString => true
  | String c s', String d t' => eq_ci c d && string_eq_ci s' t'
  | _, _ => false
  end.




(* ================================================================= *)
(** ** encoding/json on string slices *)

Definition dquote : ascii := ascii_of_nat 34.

Definition hex_digit (n : nat) : ascii :=
  if Nat.ltb n 10 then ascii_of_nat (48 + n) else ascii_of_nat (87 + n).

(** One byte of a JSON string literal as [json.Marshal] writes it (with
    HTML escaping, the default).  Bytes above the ASCII range are
    copied, which is what the encoder does inside valid UTF-8. *)
Definition json_escape_char (c : ascii) : string :=
  let n := nat_of_ascii c in
  if Nat.eqb n 34 then String "\" (String dquote "")
  else if Nat.eqb n 92 then "\\"
  else if Nat.eqb n 8 then "\b"
  else if Nat.eqb n 12 then "\f"
  else if Nat.eqb n 10 then "\n"
  else if Nat.eqb n 13 then "\r"
  else if Nat.eqb n 9 then "\t"
  else if Nat.ltb n 32 || Nat.eqb n 60 || Nat.eqb n 62 || Nat.eqb n 38 then
    "\u00" +:+ String (hex_digit (n / 16)) (String (hex_digit (n mod 16)) "")
  else String c "".

Fixpoint json_escape (s : string) : string :=
  match s with
  | EmptyString => EmptyString
  | String c s' => json_escape_char c +:+ json_escape s'
  end.

Definition json_string (s : string) : string :=
  String dquote (json_escape s +:+ String dquote "").

Fixpoint join (sep : string) (l : list string) : string :=
  match l with
  | [] => ""
  | [x] => x
  | x :: l' => x +:+ sep +:+ join sep l'
  end.

(** [json.Marshal] of a [[]string]: [null] for the nil slice. *)
Definition json_marshal_strings (s : option (list string)) : string :=
  match s with
  | None => "null"
  | Some l => "[" +:+ join "," (map json_string l) +:+ "]"
  end.

(* ================================================================= *)
(** ** internal/storage: models *)

(** [time.Time], an instant. *)
Definition Time := Z.
Bind Scope Z_scope with Time.

Inductive error : Type :=
  | ErrNotFound                (* storage.ErrNotFound *)
  | ErrOther (msg : string).   (* any other error: the engine, a reader *)

Inductive result (A : Type) : Type :=
  | Ok (a : A)
  | Err (e : error).
Arguments Ok {A} a.
Arguments Err {A} e.

Record AttachmentMeta : Type := mkAttachmentMeta {
  AttID : Z;
  Filename : string;
  ContentType : string;
  AttSize : Z
}.

(** [Attachment] embeds [AttachmentMeta] and adds the payload. *)
Record Attachment : Type := mkAttachment {
  Meta : AttachmentMeta;
  Data : list Byte.byte
}.

Record Email : Type := mkEmail {
  ID : Z;
  MessageID : string;
  From : string;
  To : option (list string);
  CC : option (list string);
  BCC : option (list string);
  Subject : string;
  BodyPlain : string;
  BodyHTML : string;
  Headers : list (string * list string);
  Attachments : list AttachmentMeta;
  Size : Z;
  ReceivedAt : Time;
  Read : bool
}.

Record EmailFilter : Type := mkEmailFilter {
  FilterFrom : string;
  FilterTo : string;
  FilterSubject : string;
  Since : option Time;
  Until : option Time
}.

Record EmailListResult : Type := mkEmailListResult {
  Emails : list Email;
  Total : Z
}.


(* ================================================================= *)
(** ** internal/storage: the SQLite schema *)

(** A row of table [emails].  The JSON columns [to_addresses],
    [cc_addresses], [bcc_addresses] and [headers] hold the value that
    [SaveEmail] marshals and that [GetEmail] unmarshals again; the text
    of [to_addresses], which the queries match with [LIKE], is
    [json_marshal_strings] of it. *)
Record EmailRow : Type := mkEmailRow {
  e_id : Z;
  e_message_id : string;
  e_from_address : string;
  e_to_addresses : option (list string);
  e_cc_addresses : option (list string);
  e_bcc_addresses : option (list string);
  e_subject : string;
  e_body_plain : string;
  e_body_html : string;
  e_headers : list (string * list string);
  e_size : Z;
  e_received_at : Time;
  e_read : bool
}.

(** A row of table [attachments]; [a_email_id] is the column declared
    [FOREIGN KEY (email_id) REFERENCES emails(id) ON DELETE CASCADE]. *)
Record AttachmentRow : Type := mkAttachmentRow {
  a_id : Z;
  a_email_id : Z;
  a_filename : string;
  a_content_type : string;
  a_size : Z;
  a_data : list Byte.byte
}.

(** The database file: both tables in rowid order, and for each the
    [sqlite_sequence] counter of [AUTOINCREMENT] (the largest rowid ever
    given out). *)
Record DB : Type := mkDB {
  emails : list EmailRow;
  attachments : list AttachmentRow;
  emails_seq : Z;
  attachments_seq : Z
}.

Definition schema_empty : DB :=
  {| emails := []; attachments := []; emails_seq := 0; attachments_seq := 0 |}.

(** The options that [NewSQLiteStorage] appends to the path of the
    database in the data source name. *)
Definition dsn_options : list (string * string) :=
  [("_journal_mode", "WAL"); ("_busy_timeout", "5000")].

Fixpoint dsn_get (key : string) (opts : list (string * string)) : option string :=
  match opts with
  | [] => None
  | (k, v) :: opts' => if String.eqb k key then Some v else dsn_get key opts'
  end.

(** Whether the connection enforces foreign keys.  SQLite leaves the
    enforcement off unless the connection asks for it; the driver sends
    [PRAGMA foreign_keys] only when the data source name carries the
    option [_fk] or [_foreign_keys]. *)
Definition foreign_keys_of_dsn (opts : list (string * string)) : bool :=
  let on v := existsb (String.eqb (ToLower v)) ["1"; "yes"; "true"; "on"] in
  match dsn_get "_fk" opts with
  | Some v => on v
  | None =>
      match dsn_get "_foreign_keys" opts with
      | Some v => on v
      | None => false
      end
  end.

Record SQLiteStorage : Type := mkSQLiteStorage {
  db : DB;
  hasFTS5 : bool;
  foreign_keys : bool
}.

(** [NewSQLiteStorage]: open the database file ([None] when the file
    does not exist yet; every [CREATE] of the schema is [IF NOT EXISTS]),
    and probe for the FTS5 extension. *)
Definition NewSQLiteStorage (file : option DB) (fts5_available : bool) : SQLiteStorage :=
  {| db := match file with Some d => d | None => schema_empty end;
     hasFTS5 := fts5_available;
     foreign_keys := foreign_keys_of_dsn dsn_options |}.

Definition with_db (s : SQLiteStorage) (d : DB) : SQLiteStorage :=
  {| db := d; hasFTS5 := hasFTS5 s; foreign_keys := foreign_keys s |}.

(* ================================================================= *)
(** ** internal/storage: SQLiteStorage *)

(** The statement of [SaveEmail] at which the engine reports an error
    (disk full, I/O error, closed database), if any. *)
Inductive SaveFault : Type :=
  | NoFault
  | BeginFails
  | InsertEmailFails
  | LastInsertIdFails
  | InsertAttachmentFails
  | CommitFails.

#[global] Instance SaveFault_eq_dec : EqDecision SaveFault.
Proof. solve_decision. Defined.

(** The dynamic type of the [interface{}] values that [SaveEmail]
    builds, and the type assertion to a pointer to [Attachment] on them. *)
Inductive iface : Type :=
  | PtrAttachmentMeta (m : AttachmentMeta)
  | PtrAttachment (a : Attachment).

Definition assert_PtrAttachment (v : iface) : option Attachment :=
  match v with
  | PtrAttachment a => Some a
  | PtrAttachmentMeta _ => None
  end.

Definition row_of_email (id : Z) (email : Email) : EmailRow :=
  {| e_id := id;
     e_message_id := MessageID email;
     e_from_address := From email;
     e_to_addresses := To email;
     e_cc_addresses := CC email;
     e_bcc_addresses := BCC email;
     e_subject := Subject email;
     e_body_plain := BodyPlain email;
     e_body_html := BodyHTML email;
     e_headers := Headers email;
     e_size := Size email;
     e_received_at := ReceivedAt email;
     e_read := Read email |}.

(** The scan of one row of [emails] into an [Email]. *)
Definition email_of_row (r : EmailRow) (atts : list AttachmentMeta) : Email :=
  {| ID := e_id r;
     MessageID := e_message_id r;
     From := e_from_address r;
     To := e_to_addresses r;
     CC := e_cc_addresses r;
     BCC := e_bcc_addresses r;
     Subject := e_subject r;
     BodyPlain := e_body_plain r;
     BodyHTML := e_body_html r;
     Headers := e_headers r;
     Attachments := atts;
     Size := e_size r;
     ReceivedAt := e_received_at r;
     Read := e_read r |}.

(** [INSERT INTO emails]: the new rowid is one more than the sequence. *)
Definition insert_email (tx : DB) (email : Email) : Z * DB :=
  let emailID := (emails_seq tx + 1)%Z in
  (emailID,
   {| emails := emails tx ++ [row_of_email emailID email];
      attachments := attachments tx;
      emails_seq := emailID;
      attachments_seq := attachments_seq tx |}).

Definition insert_attachment (tx : DB) (emailID : Z) (att : AttachmentMeta)
    (data : list Byte.byte) : DB :=
  let aid := (attachments_seq tx + 1)%Z in
  {| emails := emails tx;
     attachments := attachments tx ++
       [{| a_id := aid; a_email_id := emailID; a_filename := Filename att;
           a_content_type := ContentType att; a_size := AttSize att;
           a_data := data |}];
     emails_seq := emails_seq tx;
     attachments_seq := aid |}.

(** The loop [for _, att := range email.Attachments] of [SaveEmail]:
    [att] is an [AttachmentMeta], so the value asserted is a
    [*AttachmentMeta].  [None] is the return on a failed [Exec]. *)
Fixpoint insert_attachments (fault : SaveFault) (emailID : Z)
    (atts : list AttachmentMeta) (tx : DB) : option DB :=
  match atts with
  | [] => Some tx
  | att :: rest =>
      match assert_PtrAttachment (PtrAttachmentMeta att) with
      | Some attWithData =>
          if bool_decide (fault = InsertAttachmentFails) then None
          else insert_attachments fault emailID rest
                 (insert_attachment tx emailID att (Data attWithData))
      | None => insert_attachments fault emailID rest tx
      end
  end.

(** [message_id TEXT UNIQUE]: the insert fails when a row already has
    this (non-NULL) value. *)
Definition message_id_taken (tx : DB) (mid : string) : bool :=
  existsb (fun r => String.eqb (e_message_id r) mid) (emails tx).

(** [SaveEmail].  The transaction works on [tx]; every return before the
    commit leaves the database as it was (the deferred [Rollback]). *)
Definition SaveEmail (fault : SaveFault) (s : SQLiteStorage) (email : Email)
    : result Z * SQLiteStorage :=
  if bool_decide (fault = BeginFails) then (Err (ErrOther "begin"), s)
  else
    let tx := db s in
    if bool_decide (fault = InsertEmailFails) || message_id_taken tx (MessageID email)
    then (Err (ErrOther "insert"), s)
    else
      let '(emailID, tx1) := insert_email tx email in
      if bool_decide (fault = LastInsertIdFails) then (Err (ErrOther "rowid"), s)
      else
        match insert_attachments fault emailID (Attachments email) tx1 with
        | None => (Err (ErrOther "insert"), s)
        | Some tx2 =>
            if bool_decide (fault = CommitFails) then (Err (ErrOther "commit"), s)
            else (Ok emailID, with_db s tx2)
        end.

Definition meta_of_row (a : AttachmentRow) : AttachmentMeta :=
  {| AttID := a_id a; Filename := a_filename a;
     ContentType := a_content_type a; AttSize := a_size a |}.

(** [GetEmail]: the row with this id, and the metadata of the rows of
    [attachments] whose [email_id] is this id. *)
Definition GetEmail (s : SQLiteStorage) (id : Z) : result Email :=
  match find (fun r => Z.eqb (e_id r) id) (emails (db s)) with
  | None => Err ErrNotFound
  | Some r =>
      Ok (email_of_row r
            (map meta_of_row
               (List.filter (fun a => Z.eqb (a_email_id a) id) (attachments (db s)))))
  end.

(** The [WHERE] clause that [ListEmails] builds from the filter. *)
Definition filter_matches (f : option EmailFilter) (r : EmailRow) : bool :=
  match f with
  | None => true
  | Some f =>
      (if String.eqb (FilterFrom f) "" then true
       else like ("%" +:+ FilterFrom f +:+ "%") (e_from_address r)) &&
      (if String.eqb (FilterTo f) "" then true
       else like ("%" +:+ FilterTo f +:+ "%")
              (json_marshal_strings (e_to_addresses r))) &&
      (if String.eqb (FilterSubject f) "" then true
       else like ("%" +:+ FilterSubject f +:+ "%") (e_subject r)) &&
      (match Since f with
       | None => true
       | Some t => Z.leb t (e_received_at r)
       end) &&
      (match Until f with
       | None => true
       | Some t => Z.leb (e_received_at r) t
       end)
  end.

(** [ORDER BY received_at DESC].  SQL leaves the order of rows with equal
    keys to the engine; SQLite returns them in the order of its scan,
    ascending rowid, which is what this stable insertion into the rows
    taken in table order gives. *)
Fixpoint insert_desc (r : EmailRow) (l : list EmailRow) : list EmailRow :=
  match l with
  | [] => [r]
  | x :: l' =>
      if Z.leb (e_received_at x) (e_received_at r) then r :: x :: l'
      else x :: insert_desc r l'
  end.

Fixpoint order_by_received_at_desc (rows : list EmailRow) : list EmailRow :=
  match rows with
  | [] => []
  | r :: rows' => insert_desc r (order_by_received_at_desc rows')
  end.

(** [LIMIT limit OFFSET offset]: a negative limit is no limit, a negative
    offset is no offset. *)
Definition limit_offset {A : Type} (limit offset : Z) (rows : list A) : list A :=
  let rest := skipn (Z.to_nat offset) rows in
  if Z.ltb limit 0 then rest else firstn (Z.to_nat limit) rest.

(** [ListEmails]; the rows are scanned without their attachments. *)
Definition ListEmails (s : SQLiteStorage) (f : option EmailFilter)
    (limit offset : Z) : EmailListResult :=
  let matching := List.filter (filter_matches f) (emails (db s)) in
  {| Emails := map (fun r => email_of_row r [])
                 (limit_offset limit offset (order_by_received_at_desc matching));
     Total := Z.of_nat (length matching) |}.

(** The [WHERE] clause of the fallback search. *)
Definition like_search (query : string) (r : EmailRow) : bool :=
  let searchPattern := "%" +:+ query +:+ "%" in
  like searchPattern (e_subject r) ||
  like searchPattern (e_from_address r) ||
  like searchPattern (json_marshal_strings (e_to_addresses r)) ||
  like searchPattern (e_body_plain r).

Section Search.

(** [emails_fts MATCH ?] of the FTS5 extension on the columns
    [subject], [from_address], [to_addresses] and [body_plain] of a
    row, the triggers keeping the index equal to the table; [None] when
    the extension rejects the query text. *)
Variable fts5_match : string -> option (EmailRow -> bool).

(** [SearchEmails].  The extension reads the query text when the
    statement is stepped, so a text it rejects ends the loop over the
    rows ([rows.Err] is not consulted) and fails the count query, whose
    error is replaced by [len(emails)]: the page is empty.  The error
    return of [db.Query] is an engine fault. *)
Definition SearchEmails (s : SQLiteStorage) (query : string)
    (limit offset : Z) : result EmailListResult :=
  let page hit :=
    let matching := List.filter hit (emails (db s)) in
    {| Emails := map (fun r => email_of_row r [])
                   (limit_offset limit offset (order_by_received_at_desc matching));
       Total := Z.of_nat (length matching) |} in
  if hasFTS5 s then
    match fts5_match query with
    | None => Ok {| Emails := []; Total := 0 |}
    | Some hit => Ok (page hit)
    end
  else Ok (page (like_search query)).

End Search.

(** [DELETE FROM emails WHERE ...]: the rows affected, and the database
    afterwards.  The rows of [attachments] that reference a deleted row
    go with it when the connection enforces foreign keys. *)
Definition delete_emails (P : EmailRow -> bool) (s : SQLiteStorage)
    : Z * SQLiteStorage :=
  let d := db s in
  let gone := List.filter P (emails d) in
  (Z.of_nat (length gone),
   with_db s
     {| emails := List.filter (fun r => negb (P r)) (emails d);
        attachments :=
          if foreign_keys s then
            List.filter (fun a => negb (existsb (fun r => Z.eqb (e_id r) (a_email_id a)) gone))
                   (attachments d)
          else attachments d;
        emails_seq := emails_seq d;
        attachments_seq := attachments_seq d |}).

Definition DeleteEmail (s : SQLiteStorage) (id : Z) : result unit * SQLiteStorage :=
  let '(rows, s') := delete_emails (fun r => Z.eqb (e_id r) id) s in
  if Z.eqb rows 0 then (Err ErrNotFound, s') else (Ok tt, s').

Definition DeleteAllEmails (s : SQLiteStorage) : SQLiteStorage :=
  snd (delete_emails (fun _ => true) s).

Definition GetEmailCount (s : SQLiteStorage) : Z :=
  Z.of_nat (length (emails (db s))).

Definition attachment_of_row (a : AttachmentRow) : Attachment :=
  {| Meta := meta_of_row a; Data := a_data a |}.

Definition GetAttachment (s : SQLiteStorage) (id : Z) : result Attachment :=
  match find (fun a => Z.eqb (a_id a) id) (attachments (db s)) with
  | None => Err ErrNotFound
  | Some a => Ok (attachment_of_row a)
  end.

Definition DeleteOldEmails (s : SQLiteStorage) (before : Time) : Z * SQLiteStorage :=
  delete_emails (fun r => Z.ltb (e_received_at r) before) s.

(** [DeleteExcessEmails]: the ids selected by
    [ORDER BY received_at DESC LIMIT -1 OFFSET maxCount] are deleted. *)
Definition excess_ids (d : DB) (maxCount : Z) : list Z :=
  map e_id (limit_offset (-1) maxCount (order_by_received_at_desc (emails d))).

Definition DeleteExcessEmails (s : SQLiteStorage) (maxCount : Z) : Z * SQLiteStorage :=
  let ids := excess_ids (db s) maxCount in
  delete_emails (fun r => existsb (Z.eqb (e_id r)) ids) s.

(* ================================================================= *)
(** ** internal/email: Parser *)

(** A MIME entity as the go-message reader presents it to the parser:
    - [content_type]: the result of [Header.ContentType()], media type
      and parameters, [None] when it returns an error;
    - [content_disposition]: the same for [Header.ContentDisposition()];
    - [transfer_encoding]: [Header.Get] of Content-Transfer-Encoding;
    - [body]: what [io.ReadAll(entity.Body)] returns, [None] on error;
    - [parts], [parts_err]: the parts that [MultipartReader().NextPart()]
      yields in order, followed by [io.EOF], or by an error when
      [parts_err] is set. *)
Inductive Entity : Type :=
  mkEntity (content_type : option (string * list (string * string)))
           (content_disposition : option (string * list (string * string)))
           (transfer_encoding : string)
           (body : option (list Byte.byte))
           (parts : list Entity)
           (parts_err : bool).

(** The functions of the Go libraries that the parser calls. *)
Record MailLib : Type := mkMailLib {
  mail_ReadMessage : list Byte.byte -> option (list (string * list string));
  message_Read : list Byte.byte -> option Entity;
  mail_ParseAddress : string -> option string;
  mail_ParseAddressList : string -> option (list string);
  mime_DecodeHeader : string -> option string;
  base64_Decode : list Byte.byte -> option (list Byte.byte);
  quotedprintable_ReadAll : list Byte.byte -> option (list Byte.byte)
}.

(** Indexing a [map[string]string] that may be nil: the zero value when
    the key is absent. *)
Fixpoint param (key : string) (params : list (string * string)) : string :=
  match params with
  | [] => ""
  | (k, v) :: params' => if String.eqb k key then v else param key params'
  end.

(** [Header.Get]: the first value under the key, keys compared up to
    case (the reader stores them in canonical form). *)
Fixpoint header_get (key : string) (h : list (string * list string)) : string :=
  match h with
  | [] => ""
  | (k, vs) :: h' =>
      if string_eq_ci k key then match vs with v :: _ => v | [] => "" end
      else header_get key h'
  end.

Definition set_BodyPlain (email : Email) (text : string) : Email :=
  {| ID := ID email; MessageID := MessageID email; From := From email;
     To := To email; CC := CC email; BCC := BCC email;
     Subject := Subject email; BodyPlain := text; BodyHTML := BodyHTML email;
     Headers := Headers email; Attachments := Attachments email;
     Size := Size email; ReceivedAt := ReceivedAt email; Read := Read email |}.

Definition set_BodyHTML (email : Email) (text : string) : Email :=
  {| ID := ID email; MessageID := MessageID email; From := From email;
     To := To email; CC := CC email; BCC := BCC email;
     Subject := Subject email; BodyPlain := BodyPlain email; BodyHTML := text;
     Headers := Headers email; Attachments := Attachments email;
     Size := Size email; ReceivedAt := ReceivedAt email; Read := Read email |}.

Section Parser.

Variable lib : MailLib.

(** [decodeContent]: a failed decoding returns the data as it came. *)
Definition decodeContent (data : list Byte.byte) (encoding : string) : list Byte.byte :=
  let encoding := ToLower (TrimSpace encoding) in
  if String.eqb encoding "base64" then
    match base64_Decode lib data with Some decoded => decoded | None => data end
  else if String.eqb encoding "quoted-printable" then
    match quotedprintable_ReadAll lib data with Some decoded => decoded | None => data end
  else data.

(** The test [isAttachment] of [parsePart]. *)
Definition isAttachment (disposition : string) (dispParams : list (string * string)) : bool :=
  String.eqb disposition "attachment" ||
  (String.eqb disposition "inline" && negb (String.eqb (param "filename" dispParams) "")).

(** The file name that [parsePart] gives an attachment. *)
Definition attachment_filename (dispParams params : list (string * string)) : string :=
  let filename := param "filename" dispParams in
  let filename := if String.eqb filename "" then param "name" params else filename in
  if String.eqb filename "" then "attachment" else filename.

(** [parsePart]: the attachments found in the part, and the email with
    the text bodies the part fills in. *)
Fixpoint parsePart (entity : Entity) (email : Email) {struct entity}
    : result (list Attachment * Email) :=
  match entity with
  | mkEntity content_type content_disposition encoding body parts parts_err =>
      let '(mediaType, params) :=
        match content_type with
        | Some ct => ct
        | None => ("text/plain", [])
        end in
      let '(disposition, dispParams) :=
        match content_disposition with
        | Some cd => cd
        | None => ("", [])
        end in
      if isAttachment disposition dispParams then
        match body with
        | None => Err (ErrOther "read")
        | Some data =>
            let data := decodeContent data encoding in
            Ok ([ {| Meta := {| AttID := 0;
                                Filename := attachment_filename dispParams params;
                                ContentType := mediaType;
                                AttSize := Z.of_nat (length data) |};
                     Data := data |} ], email)
        end
      else if HasPrefix mediaType "text/" then
        match body with
        | None => Err (ErrOther "read")
        | Some data =>
            let text := string_of_list_byte (decodeContent data encoding) in
            if String.eqb mediaType "text/plain" then Ok ([], set_BodyPlain email text)
            else if String.eqb mediaType "text/html" then Ok ([], set_BodyHTML email text)
            else Ok ([], email)
        end
      else if HasPrefix mediaType "multipart/" then
        (fix next_part (ps : list Entity) (attachments : list Attachment)
             (email : Email) {struct ps} : result (list Attachment * Email) :=
           match ps with
           | [] =>
               if parts_err then Err (ErrOther "multipart")
               else Ok (attachments, email)
           | part :: ps' =>
               match parsePart part email with
               | Err e => Err e
               | Ok (atts, email') => next_part ps' (attachments ++ atts) email'
               end
           end) parts [] email
      else Ok ([], email)
  end.

(** [parseBody]. *)
Definition parseBody (entity : Entity) (email : Email)
    : result (list Attachment * Email) :=
  match entity with
  | mkEntity content_type _ _ _ parts parts_err =>
      let mediaType :=
        match content_type with Some ct => fst ct | None => "text/plain" end in
      if HasPrefix mediaType "multipart/" then
        (fix next_part (ps : list Entity) (attachments : list Attachment)
             (email : Email) {struct ps} : result (list Attachment * Email) :=
           match ps with
           | [] =>
               if parts_err then Err (ErrOther "multipart")
               else Ok (attachments, email)
           | part :: ps' =>
               match parsePart part email with
               | Err e => Err e
               | Ok (atts, email') => next_part ps' (attachments ++ atts) email'
               end
           end) parts [] email
      else parsePart entity email
  end.

(** [strings.Split(s, ",")]. *)
Fixpoint split_comma (s : string) : list string :=
  match s with
  | EmptyString => [""]
  | String c s' =>
      if Ascii.eqb c "," then "" :: split_comma s'
      else match split_comma s' with
           | [] => [String c ""]
           | x :: xs => String c x :: xs
           end
  end.

(** [parseAddressList]; the result is never the nil slice. *)
Definition parseAddressList (addrs : string) : option (list string) :=
  match mail_ParseAddressList lib addrs with
  | None =>
      Some (List.filter (fun t => negb (String.eqb t ""))
              (map TrimSpace (split_comma addrs)))
  | Some addresses => Some addresses
  end.

Definition decodeHeader (header : string) : string :=
  match mime_DecodeHeader lib header with
  | None => header
  | Some decoded => decoded
  end.

(** [parseHeaders] on the zero [Email]. *)
Definition parseHeaders (header : list (string * list string)) : Email :=
  let from := header_get "From" header in
  let to := header_get "To" header in
  let cc := header_get "Cc" header in
  let bcc := header_get "Bcc" header in
  {| ID := 0;
     MessageID := header_get "Message-ID" header;
     From := if String.eqb from "" then ""
             else match mail_ParseAddress lib from with
                  | Some addr => addr
                  | None => from
                  end;
     To := if String.eqb to "" then None else parseAddressList to;
     CC := if String.eqb cc "" then None else parseAddressList cc;
     BCC := if String.eqb bcc "" then None else parseAddressList bcc;
     Subject := decodeHeader (header_get "Subject" header);
     BodyPlain := ""; BodyHTML := "";
     Headers := header;
     Attachments := [];
     Size := 0; ReceivedAt := 0%Z; Read := false |}.

(** [Parse]. *)
Definition Parse (data : list Byte.byte) : result Email :=
  match mail_ReadMessage lib data with
  | None => Err (ErrOther "failed to parse email")
  | Some header =>
      let email := parseHeaders header in
      match message_Read lib data with
      | None => Err (ErrOther "failed to parse MIME")
      | Some entity =>
          match parseBody entity email with
          | Err _ => Err (ErrOther "failed to parse body")
          | Ok (attachments, email) =>
              Ok {| ID := ID email; MessageID := MessageID email;
                    From := From email; To := To email; CC := CC email;
                    BCC := BCC email; Subject := Subject email;
                    BodyPlain := BodyPlain email; BodyHTML := BodyHTML email;
                    Headers := Headers email;
                    Attachments := Attachments email ++ map Meta attachments;
                    Size := Z.of_nat (length data);
                    ReceivedAt := ReceivedAt email; Read := Read email |}
          end
      end
  end.

End Parser.

(* ================================================================= *)
(** ** internal/smtp: Session *)

Record Session : Type := mkSession {
  from : string;
  to : option (list string)
}.



Definition Reset (s : Session) : Session :=
  {| from := ""; to := None |}.

Section Ingestion.

Variable lib : MailLib.


End Ingestion.

(* ================================================================= *)
(** ** internal/api: handlers *)

Definition MaxInt : Z := (2 ^ 63 - 1)%Z.
Definition MinInt : Z := (- 2 ^ 63)%Z.

Definition digit_of (c : ascii) : option Z :=
  let n := nat_of_ascii c in
  if Nat.leb 48 n && Nat.leb n 57 then Some (Z.of_nat (n - 48)) else None.

Fixpoint parse_digits (s : string) (acc : Z) : option Z :=
  match s with
  | EmptyString => Some acc
  | String c s' =>
      match digit_of c with
      | Some d => parse_digits s' (10 * acc + d)%Z
      | None => None
      end
  end.

(** [strconv.Atoi], which on this platform is [strconv.ParseInt(s, 10, 64)]:
    an optional sign, then at least one decimal digit, and a value that
    fits 64 bits; [None] is an error. *)
Definition Atoi (s : string) : option Z :=
  let '(neg, digits) :=
    match s with
    | String c rest =>
        if Ascii.eqb c "-" then (true, rest)
        else if Ascii.eqb c "+" then (false, rest)
        else (false, s)
    | EmptyString => (false, s)
    end in
  match digits with
  | EmptyString => None
  | String _ _ =>
      match parse_digits digits 0 with
      | None => None
      | Some n =>
          let v := if neg then (- n)%Z else n in
          if Z.leb MinInt v && Z.leb v MaxInt then Some v else None
      end
  end.

(** The parts of an HTTP request that the handlers read: the URL query
    ([r.URL.Query()], in the order of the URL) and the route variables
    ([mux.Vars(r)]). *)
Record Request : Type := mkRequest {
  query : list (string * string);
  vars : list (string * string)
}.

(** What a handler writes: [sendSuccess], [sendError], or the raw
    attachment with its headers. *)
Inductive ResponseData : Type :=
  | EmailPage (emails : list Email) (total limit offset : Z).

Inductive Response : Type :=
  | SendSuccess (data : ResponseData)
  | SendError (status : Z) (code message : string)
  | SendAttachment (contentType filename : string) (size : Z) (data : list Byte.byte).

(** The calls a handler makes on the storage. *)
Inductive StorageCall : Type :=
  | CallSearchEmails (query : string) (limit offset : Z)
  | CallGetAttachment (id : Z).

Definition error_text (e : error) : string :=
  match e with
  | ErrNotFound => "email not found"
  | ErrOther msg => msg
  end.

(** [parseIntParam]. *)
Definition parseIntParam (r : Request) (name : string) (defaultValue min max : Z) : Z :=
  let value := param name (query r) in
  if String.eqb value "" then defaultValue
  else
    match Atoi value with
    | None => defaultValue
    | Some parsed =>
        if Z.ltb parsed min then min
        else if Z.ltb max parsed then max
        else parsed
    end.

Section Handlers.

Variable fts5_match : string -> option (EmailRow -> bool).

(** [handleSearchEmails]: the response and the storage calls made. *)
Definition handleSearchEmails (store : SQLiteStorage) (r : Request)
    : Response * list StorageCall :=
  let q := param "q" (query r) in
  if String.eqb q "" then
    (SendError 400 "INVALID_REQUEST" "Search query is required", [])
  else
    let limit := parseIntParam r "limit" 50 1 100 in
    let offset := parseIntParam r "offset" 0 0 MaxInt in
    match SearchEmails fts5_match store q limit offset with
    | Err e =>
        (SendError 500 "STORAGE_ERROR" (error_text e),
         [CallSearchEmails q limit offset])
    | Ok result =>
        (SendSuccess (EmailPage (Emails result) (Total result) limit offset),
         [CallSearchEmails q limit offset])
    end.

End Handlers.

(** [handleGetAttachment], routed at /api/emails/{id}/attachments/{aid}. *)
Definition handleGetAttachment (store : SQLiteStorage) (r : Request)
    : Response * list StorageCall :=
  match Atoi (param "aid" (vars r)) with
  | None => (SendError 400 "INVALID_ID" "Invalid attachment ID", [])
  | Some aid =>
      if Z.leb aid 0 then (SendError 400 "INVALID_ID" "Invalid attachment ID", [])
      else
        match GetAttachment store aid with
        | Err ErrNotFound =>
            (SendError 404 "NOT_FOUND" "Attachment not found", [CallGetAttachment aid])
        | Err e =>
            (SendError 500 "STORAGE_ERROR" (error_text e), [CallGetAttachment aid])
        | Ok attachment =>
            (SendAttachment (ContentType (Meta attachment))
                            (Filename (Meta attachment))
                            (AttSize (Meta attachment))
                            (Data attachment),
             [CallGetAttachment aid])
        end
  end.

(* ================================================================= *)
(** ** internal/api: WebSocketHub *)

Record WebSocketMessage : Type := mkWebSocketMessage {
  MsgType : string;
  MsgData : list (string * string)
}.

(** The outcome of a channel operation: done, or the goroutine waits. *)
Inductive outcome (A : Type) : Type :=
  | Done (a : A)
  | Blocked.
Arguments Done {A} a.
Arguments Blocked {A}.

(** [ch <- m] on a channel with a buffer of [cap] messages, given the
    messages waiting in the buffer. *)
Definition chan_send (cap : nat) (buf : list WebSocketMessage) (m : WebSocketMessage)
    : outcome (list WebSocketMessage) :=
  if Nat.ltb (length buf) cap then Done (buf ++ [m]) else Blocked.

(** [select { case op: ...; default: ... }]. *)
Definition select_default {A B : Type} (op : outcome A) (sent : A -> B) (default : B)
    : outcome B :=
  match op with
  | Done a => Done (sent a)
  | Blocked => Done default
  end.

(** The buffer sizes of [make(chan *WebSocketMessage, 256)]. *)
Definition broadcast_cap : nat := 256.
Definition send_cap : nat := 256.

(** The hub.  A client is named by a number (its address); [clients]
    maps each registered client to the messages waiting in its [send]
    channel, [closed] holds the clients whose [send] channel the hub has
    closed, [broadcast] the messages waiting in the broadcast channel. *)
Record WebSocketHub : Type := mkWebSocketHub {
  clients : gmap nat (list WebSocketMessage);
  closed : gset nat;
  broadcast : list WebSocketMessage;
  next_client : nat
}.

Definition NewWebSocketHub : WebSocketHub :=
  {| clients := ∅; closed := ∅; broadcast := []; next_client := 0 |}.

(** [Broadcast]: a send on the broadcast channel with a [default] case
    that drops the message. *)
Definition Broadcast (h : WebSocketHub) (message : WebSocketMessage)
    : outcome WebSocketHub :=
  select_default (chan_send broadcast_cap (broadcast h) message)
    (fun b => {| clients := clients h; closed := closed h; broadcast := b;
                 next_client := next_client h |})
    h.

(** The body of [case client.send <- message: / default:] of [Run] for
    one client: the buffer afterwards, or [None] when the client is
    closed and deleted. *)
Definition deliver (message : WebSocketMessage) (buf : list WebSocketMessage)
    : option (list WebSocketMessage) :=
  match chan_send send_cap buf message with
  | Done buf' => Some buf'
  | Blocked => None
  end.

(** [case message := <-h.broadcast] of [Run]: the loop visits every
    client of the map once. *)
Definition Run_broadcast (h : WebSocketHub) : outcome WebSocketHub :=
  match broadcast h with
  | [] => Blocked
  | message :: rest =>
      Done {| clients := omap (deliver message) (clients h);
              closed := closed h ∪
                        dom (filter (fun kv => deliver message (snd kv) = None) (clients h));
              broadcast := rest;
              next_client := next_client h |}
  end.

(** [ServeWS] followed by [case client := <-h.register] of [Run]: a new
    client, with an empty [send] channel. *)
Definition Run_register (h : WebSocketHub) : WebSocketHub :=
  {| clients := <[next_client h := []]> (clients h);
     closed := closed h;
     broadcast := broadcast h;
     next_client := S (next_client h) |}.

(** [case client := <-h.unregister] of [Run]. *)
Definition Run_unregister (h : WebSocketHub) (client : nat) : WebSocketHub :=
  match clients h !! client with
  | Some _ =>
      {| clients := delete client (clients h);
         closed := closed h ∪ {[client]};
         broadcast := broadcast h;
         next_client := next_client h |}
  | None => h
  end.





(* ================================================================= *)
(** ** Store states, orders and the words of the specification *)

(** A database that the schema can hold: rowids are distinct, tables are
    in rowid order, and no rowid is above its [AUTOINCREMENT] sequence. *)
Definition db_wf (d : DB) : Prop :=
  StronglySorted Z.lt (map e_id (emails d)) /\
  Forall (fun r => (e_id r <= emails_seq d)%Z) (emails d) /\
  StronglySorted Z.lt (map a_id (attachments d)) /\
  Forall (fun a => (a_id a <= attachments_seq d)%Z) (attachments d).

(** Every attachment is owned by a stored message. *)
Definition owner_exists (d : DB) (a : AttachmentRow) : bool :=
  existsb (fun r => Z.eqb (e_id r) (a_email_id a)) (emails d).

Definition no_orphan (d : DB) : Prop :=
  Forall (fun a => owner_exists d a = true) (attachments d).








(** The classification of a part as an attachment in the words of the
    specification. *)
Definition spec_isAttachment (disposition : string) (dispParams : list (string * string))
    (mediaType : string) : bool :=
  String.eqb disposition "attachment" ||
  (String.eqb disposition "inline" && negb (String.eqb (param "filename" dispParams) "")) ||
  negb (HasPrefix mediaType "text/" || HasPrefix mediaType "multipart/").



(* ----------------------------------------------------------------- *)
(** *** Values on which the definitions are evaluated *)

Definition example_row (id : Z) (mid : string) (received : Time) (subject : string)
    : EmailRow :=
  {| e_id := id; e_message_id := mid;
     e_from_address := "alice@example.org";
     e_to_addresses := Some ["bob@example.org"];
     e_cc_addresses := None; e_bcc_addresses := None;
     e_subject := subject; e_body_plain := "hi"; e_body_html := "";
     e_headers := []; e_size := 120; e_received_at := received; e_read := false |}.

Definition example_attachment_row (id owner : Z) : AttachmentRow :=
  {| a_id := id; a_email_id := owner; a_filename := "report.pdf";
     a_content_type := "application/pdf"; a_size := 3;
     a_data := [Byte.x25; Byte.x50; Byte.x44] |}.

(** An email as the parser returns it for a message with one attachment. *)
Definition example_email : Email :=
  {| ID := 0; MessageID := "<1@example.org>";
     From := "alice@example.org"; To := Some ["bob@example.org"];
     CC := None; BCC := None; Subject := "report"; BodyPlain := "see attached";
     BodyHTML := ""; Headers := [];
     Attachments := [ {| AttID := 0; Filename := "report.pdf";
                         ContentType := "application/pdf"; AttSize := 3 |} ];
     Size := 420; ReceivedAt := 1000%Z; Read := false |}.

(** A database file that holds message 1 and its attachment 1. *)
Definition example_db : DB :=
  {| emails := [example_row 1 "<1@example.org>" 1000 "report"];
     attachments := [example_attachment_row 1 1];
     emails_seq := 1; attachments_seq := 1 |}.

(** Two messages received at the same instant. *)
Definition tie_db : DB :=
  {| emails := [example_row 1 "<1@example.org>" 1000 "first";
                example_row 2 "<2@example.org>" 1000 "second"];
     attachments := [];
     emails_seq := 2; attachments_seq := 0 |}.

(** A library whose decoders reject every input. *)
Definition example_lib : MailLib :=
  {| mail_ReadMessage := fun _ => None;
     message_Read := fun _ => None;
     mail_ParseAddress := fun _ => None;
     mail_ParseAddressList := fun _ => None;
     mime_DecodeHeader := fun _ => None;
     base64_Decode := fun _ => None;
     quotedprintable_ReadAll := fun _ => None |}.

(** A library that reads every input as a message without a header
    block, whose body is one text part. *)
Definition headerless_lib : MailLib :=
  {| mail_ReadMessage := fun _ => Some [];
     message_Read := fun data => Some (mkEntity None None "" (Some data) [] false);
     mail_ParseAddress := fun _ => None;
     mail_ParseAddressList := fun _ => None;
     mime_DecodeHeader := fun _ => None;
     base64_Decode := fun _ => None;
     quotedprintable_ReadAll := fun _ => None |}.


(** Well-formedness of a database given by its rows. *)
Ltac solve_db_wf :=
  unfold db_wf; simpl; split; [|split; [|split]];
  repeat first [ apply SSorted_nil | apply SSorted_cons
               | apply List.Forall_nil | apply List.Forall_cons | (cbn; lia) ].

(* ================================================================= *)
(** ** internal/storage: the stores the program reaches *)

(** The stores reached from a new database file by the operations of
    the storage; [delete_emails] stands for [DeleteEmail],
    [DeleteAllEmails], [DeleteOldEmails] and [DeleteExcessEmails], each
    of which is one [DELETE FROM emails]. *)
Inductive store_reachable : SQLiteStorage -> Prop :=
  | reach_open (fts5_available : bool) :
      store_reachable (NewSQLiteStorage None fts5_available)
  | reach_save (fault : SaveFault) (s : SQLiteStorage) (email : Email) :
      store_reachable s -> store_reachable (snd (SaveEmail fault s email))
  | reach_delete (P : EmailRow -> bool) (s : SQLiteStorage) :
      store_reachable s -> store_reachable (snd (delete_emails P s)).

(* ================================================================= *)
(** ** internal/api: the other handlers *)

(** What the other handlers write: the [data] of [sendSuccess] or the
    error of [sendError]. *)
Inductive ReplyData : Type :=
  | DataEmail (email : Email)
  | DataPage (emails : list Email) (total limit offset : Z)
  | DataDeleted (id : Z)
  | DataMessage (message : string)
  | DataStats (totalEmails todayCount : Z).

Inductive Reply : Type :=
  | ReplySuccess (data : ReplyData)
  | ReplyError (status : Z) (code message : string).

(** [parseIDParam]. *)
Definition parseIDParam (r : Request) : Z :=
  match Atoi (param "id" (vars r)) with
  | Some id => id
  | None => 0%Z
  end.

(** [handleGetEmail]. *)
Definition handleGetEmail (store : SQLiteStorage) (r : Request) : Reply :=
  let id := parseIDParam r in
  if Z.eqb id 0 then ReplyError 400 "INVALID_ID" "Invalid email ID"
  else
    match GetEmail store id with
    | Err ErrNotFound => ReplyError 404 "NOT_FOUND" "Email not found"
    | Err e => ReplyError 500 "STORAGE_ERROR" (error_text e)
    | Ok email => ReplySuccess (DataEmail email)
    end.


Section Listing.

(** [time.Parse(time.RFC3339, _)], [None] on error. *)
Variable time_Parse : string -> option Time.


End Listing.

Section Events.

(** How [encoding/json] writes an [int64] and a [time.Time] in the data
    of a message. *)
Variable json_int64 : Z -> string.
Variable json_time : Time -> string.

(** The outcome of [Broadcast] as a hub: it never waits. *)
Definition publish (h : WebSocketHub) (message : WebSocketMessage) : WebSocketHub :=
  match Broadcast h message with
  | Done h' => h'
  | Blocked => h
  end.

(** [handleDeleteEmail]: the reply, the store and the hub afterwards. *)
Definition handleDeleteEmail (store : SQLiteStorage) (h : WebSocketHub) (r : Request)
    : Reply * SQLiteStorage * WebSocketHub :=
  let id := parseIDParam r in
  if Z.eqb id 0 then (ReplyError 400 "INVALID_ID" "Invalid email ID", store, h)
  else
    match DeleteEmail store id with
    | (Err ErrNotFound, store') =>
        (ReplyError 404 "NOT_FOUND" "Email not found", store', h)
    | (Err e, store') =>
        (ReplyError 500 "STORAGE_ERROR" (error_text e), store', h)
    | (Ok _, store') =>
        (ReplySuccess (DataDeleted id), store',
         publish h {| MsgType := "email.deleted"; MsgData := [("id", json_int64 id)] |})
    end.

(** [handleDeleteAllEmails]. *)
Definition handleDeleteAllEmails (store : SQLiteStorage) (h : WebSocketHub)
    : Reply * SQLiteStorage * WebSocketHub :=
  (ReplySuccess (DataMessage "All emails deleted"),
   DeleteAllEmails store,
   publish h {| MsgType := "emails.cleared"; MsgData := [] |}).


Variable lib : MailLib.


End Events.

(* ================================================================= *)
(** ** internal/api: middleware *)

(** The parts of a request that the middleware reads; [basic_auth] is
    the result of [r.BasicAuth()], [None] when it reports no
    credentials. *)
Record HttpRequest : Type := mkHttpRequest {
  Method : string;
  Path : string;
  basic_auth : option (string * string)
}.

(** What is written to the response: the headers set, the status, and
    either the error of [sendError], or the output of the handler behind
    the middleware. *)
Inductive Written (R : Type) : Type :=
  | ByHandler (headers : list (string * string)) (out : R)
  | ByMiddleware (headers : list (string * string)) (status : Z)
      (error : option (string * string)).
Arguments ByHandler {R} headers out.
Arguments ByMiddleware {R} headers status error.

Definition set_headers {R : Type} (hs : list (string * string)) (w : Written R) : Written R :=
  match w with
  | ByHandler headers out => ByHandler (hs ++ headers) out
  | ByMiddleware headers status error => ByMiddleware (hs ++ headers) status error
  end.

Definition cors_headers : list (string * string) :=
  [("Access-Control-Allow-Origin", "*");
   ("Access-Control-Allow-Methods", "GET, POST, DELETE, OPTIONS");
   ("Access-Control-Allow-Headers", "Content-Type, Authorization")].

(** [corsMiddleware]. *)
Definition corsMiddleware {R : Type} (next : HttpRequest -> Written R) (r : HttpRequest)
    : Written R :=
  if String.eqb (Method r) "OPTIONS" then ByMiddleware cors_headers 200 None
  else set_headers cors_headers (next r).

Definition www_authenticate : list (string * string) :=
  [("WWW-Authenticate",
    "Basic realm=" +:+ String dquote ("GoWebMail" +:+ String dquote ""))].

(** [authMiddleware] for the configured user name and password;
    [subtle.ConstantTimeCompare] is 1 exactly on equal byte strings. *)
Definition authMiddleware {R : Type} (username password : string)
    (next : HttpRequest -> Written R) (r : HttpRequest) : Written R :=
  if String.eqb (Path r) "/api/health" || String.eqb (Path r) "/ws" then next r
  else
    match basic_auth r with
    | None =>
        ByMiddleware www_authenticate 401 (Some ("UNAUTHORIZED", "Authentication required"))
    | Some (u, p) =>
        let usernameMatch := String.eqb u username in
        let passwordMatch := String.eqb p password in
        if negb usernameMatch || negb passwordMatch then
          ByMiddleware www_authenticate 401 (Some ("UNAUTHORIZED", "Invalid credentials"))
        else next r
    end.

(** The chain that [setupMiddleware] installs around a handler that does
    not panic: logging and recovery write nothing of their own, CORS runs
    before the optional authentication. *)
Definition middleware_chain {R : Type} (auth_enabled : bool) (username password : string)
    (handler : HttpRequest -> Written R) : HttpRequest -> Written R :=
  corsMiddleware
    (if auth_enabled then authMiddleware username password handler else handler).

(* ================================================================= *)
(** ** internal/api: the hub over several messages *)

(** [Broadcast] of each message of a list, in order. *)
Fixpoint Broadcast_all (h : WebSocketHub) (ms : list WebSocketMessage) : WebSocketHub :=
  match ms with
  | [] => h
  | m :: ms' =>
      match Broadcast h m with
      | Done h' => Broadcast_all h' ms'
      | Blocked => h
      end
  end.

(** [n] rounds of [case message := <-h.broadcast] of [Run], stopping
    when the broadcast channel is empty. *)
Fixpoint Run_drain (n : nat) (h : WebSocketHub) : WebSocketHub :=
  match n with
  | O => h
  | S n' =>
      match Run_broadcast h with
      | Done h' => Run_drain n' h'
      | Blocked => h
      end
  end.

(* ================================================================= *)
(** ** internal/retention: Manager *)

(** [time.Duration], in the unit of [Time]. *)
Definition Duration := Z.
Bind Scope Z_scope with Duration.

Record RetentionConfig : Type := mkRetentionConfig {
  Enabled : bool;
  MaxAge : Duration;
  MaxCount : Z;
  CleanupInterval : Duration
}.

(** [Manager.cleanup] at time [now]. *)
Definition cleanup (config : RetentionConfig) (now : Time) (store : SQLiteStorage)
    : SQLiteStorage :=
  let store1 :=
    if Z.ltb 0 (MaxAge config) then
      snd (DeleteOldEmails store (now - MaxAge config)%Z)
    else store in
  if Z.ltb 0 (MaxCount config) then snd (DeleteExcessEmails store1 (MaxCount config))
  else store1.


(* ================================================================= *)
(** ** internal/config *)

Record SMTPConfig : Type := mkSMTPConfig {
  SMTP_Host : string;
  SMTP_Port : Z;
  MaxMessageSize : Z;
  SMTP_Timeout : Duration
}.

Record HTTPConfig : Type := mkHTTPConfig {
  HTTP_Host : string;
  HTTP_Port : Z;
  ReadTimeout : Duration;
  WriteTimeout : Duration
}.

Record StorageConfig : Type := mkStorageConfig {
  Storage_Type : string;
  Storage_Path : string
}.

Record AuthConfig : Type := mkAuthConfig {
  Auth_Enabled : bool;
  Username : string;
  Password : string
}.

Record WebConfig : Type := mkWebConfig {
  Web_Enabled : bool;
  Auth : AuthConfig
}.

Record LoggingConfig : Type := mkLoggingConfig {
  Level : string;
  Format : string;
  Output : string
}.

Record Config : Type := mkConfig {
  SMTP : SMTPConfig;
  HTTP : HTTPConfig;
  Storage : StorageConfig;
  Retention : RetentionConfig;
  Web : WebConfig;
  Logging : LoggingConfig
}.

(** [time.Second] and [time.Hour], a [Duration] counting nanoseconds. *)
Definition Second : Duration := 1000000000.
Definition Hour : Duration := 3600 * Second.

(** [Default]. *)
Definition Default : Config :=
  {| SMTP := {| SMTP_Host := "0.0.0.0"; SMTP_Port := 1025;
                MaxMessageSize := 10 * 1024 * 1024; SMTP_Timeout := 30 * Second |};
     HTTP := {| HTTP_Host := "0.0.0.0"; HTTP_Port := 8080;
                ReadTimeout := 30 * Second; WriteTimeout := 30 * Second |};
     Storage := {| Storage_Type := "sqlite"; Storage_Path := "./data/gowebmail.db" |};
     Retention := {| Enabled := true; MaxAge := 7 * 24 * Hour; MaxCount := 1000;
                     CleanupInterval := 1 * Hour |};
     Web := {| Web_Enabled := true;
               Auth := {| Auth_Enabled := false; Username := "admin";
                          Password := "changeme" |} |};
     Logging := {| Level := "info"; Format := "json"; Output := "stdout" |} |}.

(** An override of a text setting: the variable when it is set and not
    empty ([os.Getenv] is empty for an unset variable). *)
Definition env_string (env : list (string * string)) (name old : string) : string :=
  let v := param name env in
  if String.eqb v "" then old else v.

(** An override of a port: the variable when [strconv.Atoi] accepts it. *)
Definition env_port (env : list (string * string)) (name : string) (old : Z) : Z :=
  let v := param name env in
  if String.eqb v "" then old
  else match Atoi v with Some port => port | None => old end.

(** [applyEnvOverrides] on the environment [env]. *)
Definition applyEnvOverrides (env : list (string * string)) (cfg : Config) : Config :=
  {| SMTP := {| SMTP_Host := env_string env "GOWEBMAIL_SMTP_HOST" (SMTP_Host (SMTP cfg));
                SMTP_Port := env_port env "GOWEBMAIL_SMTP_PORT" (SMTP_Port (SMTP cfg));
                MaxMessageSize := MaxMessageSize (SMTP cfg);
                SMTP_Timeout := SMTP_Timeout (SMTP cfg) |};
     HTTP := {| HTTP_Host := env_string env "GOWEBMAIL_HTTP_HOST" (HTTP_Host (HTTP cfg));
                HTTP_Port := env_port env "GOWEBMAIL_HTTP_PORT" (HTTP_Port (HTTP cfg));
                ReadTimeout := ReadTimeout (HTTP cfg);
                WriteTimeout := WriteTimeout (HTTP cfg) |};
     Storage := {| Storage_Type := Storage_Type (Storage cfg);
                   Storage_Path := env_string env "GOWEBMAIL_STORAGE_PATH"
                                     (Storage_Path (Storage cfg)) |};
     Retention := Retention cfg;
     Web := {| Web_Enabled := Web_Enabled (Web cfg);
               Auth := {| Auth_Enabled :=
                            (let v := param "GOWEBMAIL_WEB_AUTH_ENABLED" env in
                             if String.eqb v "" then Auth_Enabled (Auth (Web cfg))
                             else String.eqb v "true" || String.eqb v "1");
                          Username := env_string env "GOWEBMAIL_WEB_AUTH_USERNAME"
                                        (Username (Auth (Web cfg)));
                          Password := env_string env "GOWEBMAIL_WEB_AUTH_PASSWORD"
                                        (Password (Auth (Web cfg))) |} |};
     Logging := {| Level := env_string env "GOWEBMAIL_LOG_LEVEL" (Level (Logging cfg));
                   Format := Format (Logging cfg);
                   Output := Output (Logging cfg) |} |}.

(** What [os.ReadFile] returns for the configuration file. *)
Inductive FileRead : Type :=
  | FileNotExist
  | FileError
  | FileData (data : list Byte.byte).

Section ConfigLoad.

(** [yaml.Unmarshal(data, cfg)]: the configuration with the settings of
    the document written over [cfg], [None] on error. *)
Variable yaml_Unmarshal : list Byte.byte -> Config -> option Config.

(** [loadFromFile]: a file that does not exist leaves the defaults. *)
Definition loadFromFile (file : FileRead) (cfg : Config) : option Config :=
  match file with
  | FileNotExist => Some cfg
  | FileError => None
  | FileData data => yaml_Unmarshal data cfg
  end.

(** [Load]; [file] is the file at [path]. *)
Definition Load (path : string) (file : FileRead) (env : list (string * string))
    : option Config :=
  let loaded :=
    if negb (String.eqb path "") then loadFromFile file Default else Some Default in
  match loaded with
  | None => None
  | Some cfg => Some (applyEnvOverrides env cfg)
  end.

End ConfigLoad.

(* ================================================================= *)
(** ** internal/email: the attachments of a message, by their place *)

(** Whether [parsePart] takes the entity as an attachment. *)
Definition entity_isAttachment (entity : Entity) : bool :=
  match entity with
  | mkEntity _ content_disposition _ _ _ _ =>
      match content_disposition with
      | Some (disposition, dispParams) =>
          String.eqb disposition "attachment" ||
          (String.eqb disposition "inline" &&
           negb (String.eqb (param "filename" dispParams) ""))
      | None => false
      end
  end.

Definition entity_mediaType (entity : Entity) : string :=
  match entity with
  | mkEntity content_type _ _ _ _ _ =>
      match content_type with Some ct => fst ct | None => "text/plain" end
  end.

(** The attachment-disposed parts of an entity in the order of the
    document: such a part is one item whatever it contains, a multipart
    container contributes those of its parts, and any other part none. *)
Fixpoint attachment_parts (entity : Entity) : list Entity :=
  if entity_isAttachment entity then [entity]
  else
    match entity with
    | mkEntity _ _ _ _ parts _ =>
        if HasPrefix (entity_mediaType entity) "text/" then []
        else if HasPrefix (entity_mediaType entity) "multipart/" then
          flat_map attachment_parts parts
        else []
    end.

Section Parts.

Variable lib : MailLib.
Variable parts_err : bool.

(** The loop over [mr.NextPart()] of [parsePart] and [parseBody], by
    itself: the attachments found so far and the email are carried from
    part to part. *)
Fixpoint parse_parts (ps : list Entity) (attachments : list Attachment)
    (email : Email) {struct ps} : result (list Attachment * Email) :=
  match ps with
  | [] =>
      if parts_err then Err (ErrOther "multipart")
      else Ok (attachments, email)
  | part :: ps' =>
      match parsePart lib part email with
      | Err e => Err e
      | Ok (atts, email') => parse_parts ps' (attachments ++ atts) email'
      end
  end.

End Parts.

(** The attachment that [parsePart] builds from an attachment-disposed
    entity whose body was read. *)
Definition entity_attachment (lib : MailLib) (entity : Entity) : Attachment :=
  match entity with
  | mkEntity content_type content_disposition encoding body _ _ =>
      let data := decodeContent lib (match body with Some d => d | None => [] end) encoding in
      {| Meta := {| AttID := 0;
                    Filename :=
                      attachment_filename
                        (match content_disposition with Some cd => snd cd | None => [] end)
                        (match content_type with Some ct => snd ct | None => [] end);
                    ContentType := entity_mediaType entity;
                    AttSize := Z.of_nat (length data) |};
         Data := data |}
  end.

(** [email'] is [email] but for its plain and HTML bodies. *)
Definition bodies_only (email email' : Email) : Prop :=
  exists plain html, email' = set_BodyHTML (set_BodyPlain email plain) html.

(* ================================================================= *)
(** * Properties *)

(* ----------------------------------------------------------------- *)
(** ** Lists under an order *)

Section SortedLists.

Context {A : Type} (R : A -> A -> Prop).

Lemma StronglySorted_filter (f : A -> bool) (l : list A) :
  StronglySorted R l -> StronglySorted R (List.filter f l).
Proof.
  induction 1 as [|x l Hl IH Hx]; simpl; [constructor|].
  destruct (f x); [|exact IH].
  constructor; [exact IH|].
  rewrite List.Forall_forall in *. intros y Hy.
  apply filter_In in Hy. apply Hx, Hy.
Qed.




End SortedLists.

Lemma StronglySorted_map {A B : Type} (R : A -> A -> Prop) (S : B -> B -> Prop)
    (g : A -> B) (l : list A) :
  (forall x y, R x y -> S (g x) (g y)) ->
  StronglySorted R l -> StronglySorted S (map g l).
Proof.
  intros HRS. induction 1 as [|x l Hl IH Hx]; simpl; constructor; [exact IH|].
  rewrite List.Forall_forall in *. intros y Hy.
  apply in_map_iff in Hy as (z & <- & Hz). apply HRS, Hx, Hz.
Qed.

Lemma StronglySorted_map_inv {A B : Type} (S : B -> B -> Prop) (g : A -> B) (l : list A) :
  StronglySorted S (map g l) -> StronglySorted (fun x y => S (g x) (g y)) l.
Proof.
  induction l as [|x l IH]; simpl; intros H; [constructor|].
  inversion H as [|? ? Hl Hx]; subst.
  constructor; [apply IH, Hl|].
  rewrite Forall_map in Hx. exact Hx.
Qed.

Lemma StronglySorted_lt_NoDup (l : list Z) :
  StronglySorted Z.lt l -> NoDup l.
Proof.
  induction 1 as [|x l Hl IH Hx]; constructor; [|exact IH].
  intros Hin. apply list_elem_of_In in Hin.
  rewrite List.Forall_forall in Hx. specialize (Hx x Hin). lia.
Qed.


Lemma Permutation_list_filter {A : Type} (f : A -> bool) (l l' : list A) :
  Permutation l l' -> Permutation (List.filter f l) (List.filter f l').
Proof.
  induction 1 as [|x l l' H IH|x y l|l l' l'' H1 IH1 H2 IH2]; simpl.
  - constructor.
  - destruct (f x); [constructor|]; exact IH.
  - destruct (f x), (f y); try reflexivity. apply perm_swap.
  - etransitivity; eassumption.
Qed.

Lemma list_filter_all {A : Type} (f : A -> bool) (l : list A) :
  Forall (fun x => f x = true) l -> List.filter f l = l.
Proof.
  induction 1 as [|x l Hx Hl IH]; simpl; [reflexivity|].
  rewrite Hx, IH. reflexivity.
Qed.

Lemma list_filter_none {A : Type} (f : A -> bool) (l : list A) :
  Forall (fun x => f x = false) l -> List.filter f l = [].
Proof.
  induction 1 as [|x l Hx Hl IH]; simpl; [reflexivity|].
  rewrite Hx, IH. reflexivity.
Qed.

(* ----------------------------------------------------------------- *)
(** ** ORDER BY received_at DESC *)

Lemma insert_desc_perm (r : EmailRow) (l : list EmailRow) :
  Permutation (insert_desc r l) (r :: l).
Proof.
  induction l as [|x l IH]; simpl; [reflexivity|].
  destruct (Z.leb (e_received_at x) (e_received_at r)); [reflexivity|].
  rewrite IH. apply perm_swap.
Qed.

Lemma order_by_received_at_desc_perm (rows : list EmailRow) :
  Permutation (order_by_received_at_desc rows) rows.
Proof.
  induction rows as [|r rows IH]; simpl; [reflexivity|].
  rewrite insert_desc_perm, IH. reflexivity.
Qed.



Lemma mem_id_In (x : Z) (ids : list Z) :
  existsb (Z.eqb x) ids = true <-> In x ids.
Proof.
  rewrite existsb_exists. split.
  - intros (y & Hy & Heq). apply Z.eqb_eq in Heq. subst. exact Hy.
  - intros H. exists x. split; [exact H|apply Z.eqb_refl].
Qed.

(** Selecting the rows whose id is among those of a suffix selects the
    suffix, when ids are distinct. *)
Lemma filter_ids_of_suffix (l1 l2 : list EmailRow) :
  NoDup (map e_id (l1 ++ l2)) ->
  List.filter (fun r => existsb (Z.eqb (e_id r)) (map e_id l2)) (l1 ++ l2) = l2 /\
  List.filter (fun r => negb (existsb (Z.eqb (e_id r)) (map e_id l2))) (l1 ++ l2) = l1.
Proof.
  intros H. rewrite map_app in H. apply NoDup_app in H as (_ & H12 & _).
  assert (Hout : Forall (fun r => existsb (Z.eqb (e_id r)) (map e_id l2) = false) l1).
  { apply List.Forall_forall. intros x Hx.
    destruct (existsb _ _) eqn:E; [|reflexivity].
    apply mem_id_In in E. exfalso.
    apply (H12 (e_id x)); apply list_elem_of_In; [apply in_map, Hx|exact E]. }
  assert (Hin : Forall (fun r => existsb (Z.eqb (e_id r)) (map e_id l2) = true) l2).
  { apply List.Forall_forall. intros x Hx. apply mem_id_In, in_map, Hx. }
  rewrite !List.filter_app. split.
  - rewrite (list_filter_none _ l1 Hout), (list_filter_all _ l2 Hin). reflexivity.
  - rewrite (list_filter_all _ l1), (list_filter_none _ l2), app_nil_r; [reflexivity| |].
    + eapply List.Forall_impl; [|exact Hin]. simpl. intros r ->. reflexivity.
    + eapply List.Forall_impl; [|exact Hout]. simpl. intros r ->. reflexivity.
Qed.

Lemma emails_ids_NoDup (d : DB) :
  db_wf d -> NoDup (map e_id (order_by_received_at_desc (emails d))).
Proof.
  intros (Hs & _).
  rewrite (Permutation_map e_id (order_by_received_at_desc_perm (emails d))).
  apply StronglySorted_lt_NoDup, Hs.
Qed.

(** A [DELETE] whose condition no row meets changes nothing. *)
Lemma delete_emails_none (P : EmailRow -> bool) (s : SQLiteStorage) :
  Forall (fun r => P r = false) (emails (db s)) ->
  delete_emails P s = (0%Z, s).
Proof.
  intros H. unfold delete_emails.
  rewrite (list_filter_none P _ H). simpl.
  rewrite (list_filter_all (fun r => negb (P r))).
  2:{ eapply List.Forall_impl; [|exact H]. simpl. intros r ->. reflexivity. }
  rewrite (list_filter_all (fun a => negb false)).
  2:{ apply List.Forall_forall. reflexivity. }
  destruct s as [[es ats eseq aseq] fts fk]. unfold with_db. simpl.
  destruct fk; reflexivity.
Qed.

(* ----------------------------------------------------------------- *)
(** ** Listing *)


Lemma tie_db_wf : db_wf tie_db.
Proof.
  solve_db_wf.
Qed.



(* ----------------------------------------------------------------- *)
(** ** Eviction by count *)




(* ----------------------------------------------------------------- *)
(** ** Saving *)

(** The type assertion in the loop of [SaveEmail] never holds: the loop
    inserts nothing and cannot fail. *)
Lemma insert_attachments_skips (fault : SaveFault) (emailID : Z)
    (atts : list AttachmentMeta) (tx : DB) :
  insert_attachments fault emailID atts tx = Some tx.
Proof.
  revert tx. induction atts as [|att atts IH]; intros tx; simpl; [reflexivity|].
  apply IH.
Qed.

(** What a successful [SaveEmail] does to the database. *)
Lemma SaveEmail_ok (fault : SaveFault) (s s' : SQLiteStorage) (email : Email) (id : Z) :
  SaveEmail fault s email = (Ok id, s') ->
  id = (emails_seq (db s) + 1)%Z /\
  emails (db s') = emails (db s) ++ [row_of_email id email] /\
  attachments (db s') = attachments (db s) /\
  emails_seq (db s') = id /\
  attachments_seq (db s') = attachments_seq (db s) /\
  hasFTS5 s' = hasFTS5 s /\ foreign_keys s' = foreign_keys s.
Proof.
  unfold SaveEmail, insert_email. cbv beta iota zeta. rewrite insert_attachments_skips.
  repeat match goal with
         | |- context [bool_decide ?P] => destruct (bool_decide P)
         | |- context [message_id_taken ?d ?m] => destruct (message_id_taken d m)
         end;
    simpl;
    intros Hsave; inversion Hsave; subst; simpl; repeat split; reflexivity.
Qed.

(** A failed [SaveEmail] leaves the store as it was. *)
Lemma SaveEmail_err_rollback (fault : SaveFault) (s s' : SQLiteStorage)
    (email : Email) (e : error) :
  SaveEmail fault s email = (Err e, s') -> s' = s.
Proof.
  unfold SaveEmail, insert_email. cbv beta iota zeta. rewrite insert_attachments_skips.
  repeat match goal with
         | |- context [bool_decide ?P] => destruct (bool_decide P)
         | |- context [message_id_taken ?d ?m] => destruct (message_id_taken d m)
         end;
    simpl;
    intros Hsave; inversion Hsave; reflexivity.
Qed.

Lemma find_id_above (rows : list EmailRow) (id : Z) :
  Forall (fun r => (e_id r < id)%Z) rows ->
  find (fun r => Z.eqb (e_id r) id) rows = None.
Proof.
  induction 1 as [|r rows Hr Hrows IH]; simpl; [reflexivity|].
  destruct (Z.eqb_spec (e_id r) id); [lia|exact IH].
Qed.


(** After a failed [SaveEmail] the id that the insert would have taken
    is not found. *)
Lemma SaveEmail_err_not_found (fault : SaveFault) (s s' : SQLiteStorage)
    (email : Email) (e : error) :
  db_wf (db s) ->
  SaveEmail fault s email = (Err e, s') ->
  GetEmail s' (emails_seq (db s) + 1) = Err ErrNotFound.
Proof.
  intros (_ & Hseq & _) H. apply SaveEmail_err_rollback in H. subst s'.
  unfold GetEmail. rewrite find_id_above; [reflexivity|].
  eapply List.Forall_impl; [|exact Hseq]. simpl. intros r Hr. lia.
Qed.


(** The databases that the schema can hold are closed under the
    operations of the storage, starting from the empty one. *)
Lemma db_wf_empty (fts5_available : bool) :
  db_wf (db (NewSQLiteStorage None fts5_available)).
Proof. solve_db_wf. Qed.

Lemma StronglySorted_snoc (l : list Z) (x : Z) :
  StronglySorted Z.lt l -> Forall (fun y => (y < x)%Z) l ->
  StronglySorted Z.lt (l ++ [x]).
Proof.
  induction 1 as [|y l Hl IH Hy]; intros Hx; simpl.
  - repeat constructor.
  - inversion Hx as [|? ? Hyx Hx']; subst.
    constructor; [apply IH, Hx'|].
    apply Forall_app. split; [exact Hy|]. constructor; [exact Hyx|constructor].
Qed.

Lemma db_wf_SaveEmail (fault : SaveFault) (s : SQLiteStorage) (email : Email) :
  db_wf (db s) -> db_wf (db (snd (SaveEmail fault s email))).
Proof.
  intros Hwf.
  destruct (SaveEmail fault s email) as [[id|e] s'] eqn:Hsave; simpl.
  - destruct Hwf as (Hs & Hseq & Ha & Haseq).
    apply SaveEmail_ok in Hsave as (Hid & Hrows & Hatts & Hseq' & Haseq' & _).
    unfold db_wf. rewrite Hrows, Hatts, Hseq', Haseq'.
    split; [|split; [|split; assumption]].
    + rewrite map_app. simpl. apply StronglySorted_snoc; [exact Hs|].
      rewrite Forall_map. eapply List.Forall_impl; [|exact Hseq].
      simpl. intros r Hr. lia.
    + apply Forall_app. split.
      * eapply List.Forall_impl; [|exact Hseq]. simpl. intros r Hr. lia.
      * constructor; [simpl; lia|constructor].
  - apply SaveEmail_err_rollback in Hsave. subst s'. exact Hwf.
Qed.

Lemma Forall_list_filter {A : Type} (P : A -> Prop) (f : A -> bool) (l : list A) :
  Forall P l -> Forall P (List.filter f l).
Proof.
  intros H. apply List.Forall_forall. intros x Hx.
  apply filter_In in Hx as [Hx _].
  rewrite List.Forall_forall in H. apply H, Hx.
Qed.

Lemma db_wf_delete_emails (P : EmailRow -> bool) (s : SQLiteStorage) :
  db_wf (db s) -> db_wf (db (snd (delete_emails P s))).
Proof.
  intros (Hs & Hseq & Ha & Haseq). unfold db_wf, delete_emails. simpl.
  split; [|split; [|split]].
  - apply (StronglySorted_map (fun a b => (e_id a < e_id b)%Z) Z.lt);
      [intros x y H; exact H|].
    apply StronglySorted_filter, StronglySorted_map_inv, Hs.
  - apply Forall_list_filter, Hseq.
  - destruct (foreign_keys s); [|exact Ha].
    apply (StronglySorted_map (fun a b => (a_id a < a_id b)%Z) Z.lt);
      [intros x y H; exact H|].
    apply StronglySorted_filter, StronglySorted_map_inv, Ha.
  - destruct (foreign_keys s); [|exact Haseq].
    apply Forall_list_filter, Haseq.
Qed.

(** C1 on the code: an email with one attachment is saved on an empty
    store; the save succeeds with id 1, the message is visible, and no
    attachment was persisted: [GetEmail] lists none and no payload can
    be fetched. *)
Theorem SaveEmail_attachments_not_persisted :
  exists s1 : SQLiteStorage,
    SaveEmail NoFault (NewSQLiteStorage None true) example_email = (Ok 1%Z, s1) /\
    length (Attachments example_email) = 1 /\
    attachments (db s1) = [] /\
    (exists e, GetEmail s1 1 = Ok e /\ Subject e = "report" /\ Attachments e = []) /\
    (forall aid, GetAttachment s1 aid = Err ErrNotFound).
Proof.
  eexists. split; [reflexivity|]. split; [reflexivity|]. split; [reflexivity|].
  split; [eexists; repeat split; reflexivity|].
  intros aid. reflexivity.
Qed.

(* ----------------------------------------------------------------- *)
(** ** Deleting and the attachments of a message *)

(** The connection that [NewSQLiteStorage] opens does not enforce
    foreign keys. *)
Lemma NewSQLiteStorage_foreign_keys (file : option DB) (fts5_available : bool) :
  foreign_keys (NewSQLiteStorage file fts5_available) = false.
Proof. reflexivity. Qed.

(** On a connection that enforces foreign keys a [DELETE] leaves no
    attachment without its message. *)
Lemma delete_emails_cascade (P : EmailRow -> bool) (s : SQLiteStorage) :
  foreign_keys s = true ->
  no_orphan (db s) ->
  no_orphan (db (snd (delete_emails P s))).
Proof.
  intros Hfk Hno. unfold no_orphan, delete_emails, owner_exists in *. simpl.
  rewrite Hfk. apply List.Forall_forall. intros a Ha.
  apply filter_In in Ha as [Ha Hkeep].
  rewrite List.Forall_forall in Hno. specialize (Hno a Ha).
  apply existsb_exists in Hno as (r & Hr & Hid).
  apply existsb_exists. exists r. split; [|exact Hid].
  apply filter_In. split; [exact Hr|].
  destruct (P r) eqn:HP; [|reflexivity]. exfalso.
  apply negb_true_iff in Hkeep.
  assert (Hex : existsb (fun r0 => Z.eqb (e_id r0) (a_email_id a)) (List.filter P (emails (db s))) = true).
  { apply existsb_exists. exists r. split; [apply filter_In; split; assumption|exact Hid]. }
  congruence.
Qed.

(** Without foreign keys a [DELETE] on [emails] leaves [attachments] as
    it is. *)
Lemma delete_emails_attachments_kept (P : EmailRow -> bool) (s : SQLiteStorage) :
  foreign_keys s = false ->
  attachments (db (snd (delete_emails P s))) = attachments (db s).
Proof.
  intros Hfk. unfold delete_emails. simpl. rewrite Hfk. reflexivity.
Qed.

(** The storage never writes a row of [attachments]: a store without
    attachment rows stays without them under every operation. *)
Lemma attachments_stay_empty (s : SQLiteStorage) :
  attachments (db s) = [] ->
  (forall fault email, attachments (db (snd (SaveEmail fault s email))) = []) /\
  (forall P, attachments (db (snd (delete_emails P s))) = []).
Proof.
  intros Hempty. split.
  - intros fault email.
    destruct (SaveEmail fault s email) as [[id|e] s'] eqn:Hsave; simpl.
    + apply SaveEmail_ok in Hsave as (_ & _ & -> & _). exact Hempty.
    + apply SaveEmail_err_rollback in Hsave. subst s'. exact Hempty.
  - intros P. unfold delete_emails. simpl. rewrite Hempty.
    destruct (foreign_keys s); reflexivity.
Qed.

(** C2 on the code: the database holds message 1 and its attachment 1;
    [DeleteEmail 1] succeeds and the message is gone, and the payload of
    its attachment is still returned: the attachment is an orphan. *)
Theorem DeleteEmail_leaves_orphan :
  no_orphan (db (NewSQLiteStorage (Some example_db) true)) /\
  exists s' : SQLiteStorage,
    DeleteEmail (NewSQLiteStorage (Some example_db) true) 1 = (Ok tt, s') /\
    GetEmail s' 1 = Err ErrNotFound /\
    GetAttachment s' 1 = Ok (attachment_of_row (example_attachment_row 1 1)) /\
    ~ no_orphan (db s').
Proof.
  split.
  - repeat constructor.
  - eexists. split; [reflexivity|]. split; [reflexivity|]. split; [reflexivity|].
    intros H. inversion H as [|? ? Ha _]; subst. discriminate Ha.
Qed.

(* ----------------------------------------------------------------- *)
(** ** Ingestion *)



(* ----------------------------------------------------------------- *)
(** ** The HTTP handlers *)

(** C8: a search request whose query parameter [q] is absent or empty is
    answered with the error [INVALID_REQUEST] (status 400), whatever the
    limit and offset parameters and whatever the store holds, and no
    call is made on the storage. *)
Theorem handleSearchEmails_empty_query :
  forall (fts5_match : string -> option (EmailRow -> bool))
         (store : SQLiteStorage) (r : Request),
    param "q" (query r) = "" ->
    handleSearchEmails fts5_match store r =
      (SendError 400 "INVALID_REQUEST" "Search query is required", []).
Proof.
  intros fts5_match store r Hq. unfold handleSearchEmails.
  rewrite Hq. reflexivity.
Qed.

Lemma handleSearchEmails_empty_query_witness :
  param "q" [("q", ""); ("limit", "10"); ("offset", "0")] = "" /\
  handleSearchEmails (fun _ => None) (NewSQLiteStorage (Some tie_db) false)
      {| query := [("q", ""); ("limit", "10"); ("offset", "0")]; vars := [] |} =
    (SendError 400 "INVALID_REQUEST" "Search query is required", []).
Proof.
  split; [reflexivity|].
  exact (handleSearchEmails_empty_query (fun _ => None)
           (NewSQLiteStorage (Some tie_db) false)
           {| query := [("q", ""); ("limit", "10"); ("offset", "0")]; vars := [] |}
           eq_refl).
Defined.

(** At the storage itself the empty query is not rejected: in fallback
    mode it matches every message. *)
Lemma SearchEmails_empty_query_matches_all (fts5_match : string -> option (EmailRow -> bool)) :
  SearchEmails fts5_match (NewSQLiteStorage (Some tie_db) false) "" 50 0 =
    Ok {| Emails := map (fun r => email_of_row r []) (emails tie_db); Total := 2 |}.
Proof. reflexivity. Qed.

(** C10: the attachment handler reads only the route variable [aid]: for
    every stored attachment with a positive id, and every text in the
    place of the message id, the response is the payload and metadata of
    that attachment. *)
Theorem handleGetAttachment_ignores_message_id :
  forall (store : SQLiteStorage) (a : AttachmentRow) (id_text aid_text : string)
         (q : list (string * string)),
    find (fun x => Z.eqb (a_id x) (a_id a)) (attachments (db store)) = Some a ->
    (0 < a_id a)%Z ->
    Atoi aid_text = Some (a_id a) ->
    handleGetAttachment store {| query := q; vars := [("id", id_text); ("aid", aid_text)] |} =
      (SendAttachment (a_content_type a) (a_filename a) (a_size a) (a_data a),
       [CallGetAttachment (a_id a)]).
Proof.
  intros store a id_text aid_text q Hfind Hpos Hatoi.
  unfold handleGetAttachment. simpl. rewrite Hatoi.
  destruct (Z.leb_spec (a_id a) 0) as [Hle|_]; [lia|].
  unfold GetAttachment. rewrite Hfind. reflexivity.
Qed.

Lemma handleGetAttachment_ignores_message_id_witness :
  find (fun x => Z.eqb (a_id x) 1) (attachments example_db)
    = Some (example_attachment_row 1 1) /\
  (0 < 1)%Z /\
  Atoi "1" = Some 1%Z /\
  GetEmail (NewSQLiteStorage (Some example_db) true) 999 = Err ErrNotFound /\
  fst (handleGetAttachment (NewSQLiteStorage (Some example_db) true)
         {| query := []; vars := [("id", "999"); ("aid", "1")] |}) =
    SendAttachment "application/pdf" "report.pdf" 3 [Byte.x25; Byte.x50; Byte.x44].
Proof.
  split; [reflexivity|]. split; [lia|]. split; [reflexivity|]. split; [reflexivity|].
  exact (f_equal fst
           (handleGetAttachment_ignores_message_id
              (NewSQLiteStorage (Some example_db) true) (example_attachment_row 1 1)
              "999" "1" [] eq_refl eq_refl eq_refl)).
Defined.

(* ----------------------------------------------------------------- *)
(** ** The hub *)

Lemma deliver_Some (m : WebSocketMessage) (buf buf' : list WebSocketMessage) :
  deliver m buf = Some buf' <-> length buf < send_cap /\ buf' = buf ++ [m].
Proof.
  unfold deliver, chan_send.
  destruct (Nat.ltb_spec (length buf) send_cap) as [Hlt|Hge]; split.
  - intros H. inversion H. split; [exact Hlt|reflexivity].
  - intros [_ ->]. reflexivity.
  - discriminate.
  - intros [Hlt _]. lia.
Qed.

Lemma deliver_None (m : WebSocketMessage) (buf : list WebSocketMessage) :
  deliver m buf = None <-> send_cap <= length buf.
Proof.
  unfold deliver, chan_send.
  destruct (Nat.ltb_spec (length buf) send_cap) as [Hlt|Hge]; split;
    try discriminate; try lia; reflexivity.
Qed.

(** The effect of one delivery round on each registered client. *)
Lemma Run_broadcast_clients (h : WebSocketHub) (m : WebSocketMessage)
    (rest : list WebSocketMessage) :
  broadcast h = m :: rest ->
  exists h',
    Run_broadcast h = Done h' /\
    broadcast h' = rest /\
    next_client h' = next_client h /\
    (forall c, clients h' !! c = clients h !! c ≫= deliver m) /\
    (forall c, c ∈ closed h' <->
               c ∈ closed h \/ exists buf, clients h !! c = Some buf /\ deliver m buf = None).
Proof.
  intros Hb. unfold Run_broadcast. rewrite Hb.
  eexists. split; [reflexivity|]. simpl.
  split; [reflexivity|]. split; [reflexivity|]. split.
  - intros c. apply lookup_omap.
  - intros c. rewrite elem_of_union, elem_of_dom. unfold is_Some.
    setoid_rewrite map_lookup_filter_Some. simpl. split.
    + intros [Hc|(buf & Hbuf & Hfull)]; [left; exact Hc|right; eauto].
    + intros [Hc|(buf & Hbuf & Hfull)]; [left; exact Hc|right; eauto].
Qed.




(* ----------------------------------------------------------------- *)
(** ** The parts of a message *)

Lemma attachment_filename_cases (dispParams params : list (string * string)) :
  (param "filename" dispParams <> "" ->
     attachment_filename dispParams params = param "filename" dispParams) /\
  (param "filename" dispParams = "" -> param "name" params <> "" ->
     attachment_filename dispParams params = param "name" params) /\
  (param "filename" dispParams = "" -> param "name" params = "" ->
     attachment_filename dispParams params = "attachment").
Proof.
  unfold attachment_filename. repeat split.
  - intros H. apply String.eqb_neq in H. rewrite H, H. reflexivity.
  - intros H1 H2. rewrite H1. simpl. apply String.eqb_neq in H2. rewrite H2. reflexivity.
  - intros H1 H2. rewrite H1. simpl. rewrite H2. reflexivity.
Qed.

(** C5, as the code has it: a part is captured as an attachment exactly
    when its disposition is [attachment], or [inline] with a file name.
    Such a part, once its body is read, yields one attachment with the
    media type of the part, the decoded body, and the file name of the
    disposition, else the [name] of the content type, else [attachment].
    A part without such a disposition that is not a multipart container
    yields no attachment; when its type is not a text type either, it is
    skipped and the email is left as it was. *)
Theorem parsePart_attachment_classification :
  forall (lib : MailLib)
         (content_type content_disposition : option (string * list (string * string)))
         (encoding : string) (body : option (list Byte.byte))
         (parts : list Entity) (parts_err : bool) (email : Email),
    let entity := mkEntity content_type content_disposition encoding body parts parts_err in
    let mediaType := fst (match content_type with Some ct => ct | None => ("text/plain", []) end) in
    let params := snd (match content_type with Some ct => ct | None => ("text/plain", []) end) in
    let disposition := fst (match content_disposition with Some cd => cd | None => ("", []) end) in
    let dispParams := snd (match content_disposition with Some cd => cd | None => ("", []) end) in
    (isAttachment disposition dispParams = true ->
       forall data, body = Some data ->
         parsePart lib entity email =
           Ok ([ {| Meta := {| AttID := 0;
                               Filename := attachment_filename dispParams params;
                               ContentType := mediaType;
                               AttSize := Z.of_nat (length (decodeContent lib data encoding)) |};
                    Data := decodeContent lib data encoding |} ], email)) /\
    (isAttachment disposition dispParams = false ->
       HasPrefix mediaType "multipart/" = false ->
       forall atts email', parsePart lib entity email = Ok (atts, email') -> atts = []) /\
    (isAttachment disposition dispParams = false ->
       HasPrefix mediaType "text/" = false ->
       HasPrefix mediaType "multipart/" = false ->
       parsePart lib entity email = Ok ([], email)) /\
    (param "filename" dispParams <> "" ->
       attachment_filename dispParams params = param "filename" dispParams) /\
    (param "filename" dispParams = "" -> param "name" params <> "" ->
       attachment_filename dispParams params = param "name" params) /\
    (param "filename" dispParams = "" -> param "name" params = "" ->
       attachment_filename dispParams params = "attachment").
Proof.
  intros lib content_type content_disposition encoding body parts parts_err email.
  cbv zeta.
  destruct content_type as [[mediaType params]|];
    destruct content_disposition as [[disposition dispParams]|]; simpl fst; simpl snd;
    (split; [|split; [|split; [|apply attachment_filename_cases]]]).
  all: try (intros Hatt data ->; simpl; rewrite Hatt; reflexivity).
  all: try (intros Hatt Htext Hmulti; simpl; rewrite ?Hatt, ?Htext, ?Hmulti; reflexivity).
  all: try (intros Hatt; discriminate Hatt).
  all: try (intros _ Htext _; vm_compute in Htext; discriminate Htext).
  all: intros Hatt Hmulti atts email'; simpl; rewrite ?Hatt, ?Hmulti;
    repeat match goal with
           | |- context [if ?b then _ else _] => destruct b
           | |- context [match ?o with Some _ => _ | None => _ end] => destruct o
           end;
    intros H; inversion H; reflexivity.
Qed.

Lemma parsePart_attachment_classification_witness :
  isAttachment "inline" [("filename", "logo.png")] = true /\
  parsePart example_lib
    (mkEntity (Some ("image/png", [("name", "image001.png")]))
              (Some ("inline", [("filename", "logo.png")]))
              "base64" (Some [Byte.x69; Byte.x56]) [] false)
    example_email =
  Ok ([ {| Meta := {| AttID := 0; Filename := "logo.png"; ContentType := "image/png";
                      AttSize := 2 |};
           Data := [Byte.x69; Byte.x56] |} ], example_email).
Proof.
  split; [reflexivity|].
  exact (proj1 (parsePart_attachment_classification example_lib
                  (Some ("image/png", [("name", "image001.png")]))
                  (Some ("inline", [("filename", "logo.png")]))
                  "base64" (Some [Byte.x69; Byte.x56]) [] false example_email)
               eq_refl [Byte.x69; Byte.x56] eq_refl).
Defined.

(** C5 as stated fails: a part of type [image/png] without a disposition
    is an attachment in the words of the specification, and [parsePart]
    captures nothing for it. *)
Lemma parsePart_skips_part_without_disposition :
  spec_isAttachment "" [] "image/png" = true /\
  isAttachment "" [] = false /\
  parsePart example_lib
    (mkEntity (Some ("image/png", [("name", "logo.png")])) None
              "base64" (Some [Byte.x69; Byte.x56]) [] false)
    example_email = Ok ([], example_email).
Proof. repeat split; reflexivity. Qed.

(* ----------------------------------------------------------------- *)
(** ** LIKE and substrings *)

Lemma like_percent (p t : string) :
  like (String "%" p) t =
    like p t || match t with EmptyString => false | String _ t' => like (String "%" p) t' end.
Proof. destruct t; reflexivity. Qed.


Lemma like_only_percent (t : string) : like "%" t = true.
Proof.
  induction t as [|c t IH]; [reflexivity|].
  rewrite like_percent. rewrite IH. reflexivity.
Qed.




(* ----------------------------------------------------------------- *)
(** ** Searching *)







(* ================================================================= *)
(** * Further properties of the code *)

(* ----------------------------------------------------------------- *)
(** ** The stores the program reaches *)

Lemma DeleteEmail_store (s : SQLiteStorage) (id : Z) :
  snd (DeleteEmail s id) = snd (delete_emails (fun r => Z.eqb (e_id r) id) s).
Proof.
  unfold DeleteEmail. destruct (delete_emails _ s) as [rows s']. simpl.
  destruct (Z.eqb rows 0); reflexivity.
Qed.

Lemma store_reachable_inv (s : SQLiteStorage) :
  store_reachable s ->
  db_wf (db s) /\ attachments (db s) = [] /\ foreign_keys s = false /\
  (0 <= emails_seq (db s))%Z.
Proof.
  induction 1 as [fts|fault s email Hr (Hwf & Hatt & Hfk & Hseq)|P s Hr (Hwf & Hatt & Hfk & Hseq)].
  - split; [solve_db_wf|]. repeat split; simpl; try reflexivity; lia.
  - split; [apply db_wf_SaveEmail, Hwf|].
    split; [apply (attachments_stay_empty s Hatt)|].
    destruct (SaveEmail fault s email) as [[id|e] s'] eqn:Hsave; simpl.
    + apply SaveEmail_ok in Hsave as (Hid & _ & _ & Hseq' & _ & _ & Hfk').
      split; [congruence|lia].
    + apply SaveEmail_err_rollback in Hsave. subst s'. split; assumption.
  - split; [apply db_wf_delete_emails, Hwf|].
    split; [apply (attachments_stay_empty s Hatt)|].
    unfold delete_emails. simpl. split; assumption.
Qed.

(** X1: in every store that the program reaches from a new database
    file, the [attachments] table is empty: [GetAttachment] answers
    not-found for every id, [GetEmail] never lists an attachment, and
    the attachment handler never sends a payload. *)
Theorem reachable_store_has_no_attachments :
  forall (s : SQLiteStorage),
    store_reachable s ->
    attachments (db s) = [] /\
    (forall id, GetAttachment s id = Err ErrNotFound) /\
    (forall id e, GetEmail s id = Ok e -> Attachments e = []) /\
    (forall r ct fn sz data, fst (handleGetAttachment s r) <> SendAttachment ct fn sz data).
Proof.
  intros s Hr. destruct (store_reachable_inv s Hr) as (_ & Hatt & _).
  assert (Hget : forall id, GetAttachment s id = Err ErrNotFound).
  { intros id. unfold GetAttachment. rewrite Hatt. reflexivity. }
  split; [exact Hatt|]. split; [exact Hget|]. split.
  - intros id e. unfold GetEmail. rewrite Hatt.
    destruct (find _ _); intros H; inversion H. reflexivity.
  - intros r ct fn sz data. unfold handleGetAttachment.
    destruct (Atoi _) as [aid|]; [|discriminate].
    destruct (Z.leb aid 0); [discriminate|].
    rewrite Hget. discriminate.
Qed.

Lemma reachable_store_has_no_attachments_witness :
  store_reachable (snd (SaveEmail NoFault (NewSQLiteStorage None true) example_email)) /\
  GetAttachment (snd (SaveEmail NoFault (NewSQLiteStorage None true) example_email)) 1
    = Err ErrNotFound.
Proof.
  assert (Hr : store_reachable
                 (snd (SaveEmail NoFault (NewSQLiteStorage None true) example_email)))
    by (apply reach_save, reach_open).
  split; [exact Hr|].
  exact (proj1 (proj2 (reachable_store_has_no_attachments _ Hr)) 1%Z).
Defined.

(* ----------------------------------------------------------------- *)
(** ** Saving and reading back *)




Lemma message_id_taken_iff (d : DB) (mid : string) :
  message_id_taken d mid = true <-> exists r, In r (emails d) /\ e_message_id r = mid.
Proof.
  unfold message_id_taken. rewrite existsb_exists. split.
  - intros (r & Hr & Heq). apply String.eqb_eq in Heq. eauto.
  - intros (r & Hr & Heq). exists r. split; [exact Hr|]. apply String.eqb_eq, Heq.
Qed.

(** X3: [message_id] is unique in the store.  Without an engine fault
    [SaveEmail] succeeds exactly when no stored message has the
    [MessageID] of the email, the empty one included; after a successful
    save, saving any email with the same [MessageID] fails and leaves the
    store as it is. *)
Theorem SaveEmail_message_id_unique :
  forall (s : SQLiteStorage) (email : Email),
    ((exists id s', SaveEmail NoFault s email = (Ok id, s')) <->
     (forall r, In r (emails (db s)) -> e_message_id r <> MessageID email)) /\
    (forall id s' fault email',
       SaveEmail NoFault s email = (Ok id, s') ->
       MessageID email' = MessageID email ->
       exists e, SaveEmail fault s' email' = (Err e, s')).
Proof.
  intros s email. split; [split|].
  - intros (id & s' & Hsave) r Hr Heq.
    assert (Htaken : message_id_taken (db s) (MessageID email) = true)
      by (apply message_id_taken_iff; eauto).
    unfold SaveEmail in Hsave. simpl in Hsave. rewrite Htaken in Hsave. discriminate.
  - intros Hfree.
    assert (Htaken : message_id_taken (db s) (MessageID email) = false).
    { destruct (message_id_taken _ _) eqn:E; [|reflexivity].
      apply message_id_taken_iff in E as (r & Hr & Heq). destruct (Hfree r Hr Heq). }
    unfold SaveEmail, insert_email. cbv beta iota zeta.
    rewrite insert_attachments_skips. simpl. rewrite Htaken. simpl. eauto.
  - intros id s' fault email' Hsave Hmid.
    apply SaveEmail_ok in Hsave as (_ & Hrows & _).
    assert (Htaken : message_id_taken (db s') (MessageID email') = true).
    { apply message_id_taken_iff. exists (row_of_email id email).
      split; [rewrite Hrows; apply in_or_app; right; left; reflexivity|].
      simpl. symmetry. exact Hmid. }
    unfold SaveEmail. rewrite Htaken, orb_true_r.
    destruct (bool_decide (fault = BeginFails)); eauto.
Qed.

(** X4: ids are not reused.  On a reachable store, whatever is deleted,
    the id that a later [SaveEmail] returns is above the id of every
    message that was stored before the deletion. *)
Theorem SaveEmail_id_never_reused :
  forall (s s' : SQLiteStorage) (P : EmailRow -> bool) (fault : SaveFault)
         (email : Email) (id : Z) (r : EmailRow),
    store_reachable s ->
    In r (emails (db s)) ->
    SaveEmail fault (snd (delete_emails P s)) email = (Ok id, s') ->
    (e_id r < id)%Z.
Proof.
  intros s s' P fault email id r Hr Hin Hsave.
  destruct (store_reachable_inv s Hr) as ((_ & Hseq & _) & _).
  apply SaveEmail_ok in Hsave as (Hid & _). simpl in Hid.
  rewrite List.Forall_forall in Hseq. specialize (Hseq r Hin). lia.
Qed.

Lemma SaveEmail_id_never_reused_witness :
  store_reachable (snd (SaveEmail NoFault (NewSQLiteStorage None true) example_email)) /\
  In (row_of_email 1 example_email)
     (emails (db (snd (SaveEmail NoFault (NewSQLiteStorage None true) example_email)))) /\
  fst (SaveEmail NoFault
         (snd (delete_emails (fun _ => true)
                 (snd (SaveEmail NoFault (NewSQLiteStorage None true) example_email))))
         example_email) = Ok 2%Z /\
  (e_id (row_of_email 1 example_email) < 2)%Z.
Proof.
  assert (Hr : store_reachable
                 (snd (SaveEmail NoFault (NewSQLiteStorage None true) example_email)))
    by (apply reach_save, reach_open).
  split; [exact Hr|]. split; [left; reflexivity|]. split; [reflexivity|].
  exact (SaveEmail_id_never_reused _ _ (fun _ => true) NoFault example_email 2
           (row_of_email 1 example_email) Hr (or_introl eq_refl) eq_refl).
Defined.

(* ----------------------------------------------------------------- *)
(** ** Deleting *)

Lemma find_none_filter (p : EmailRow -> bool) (l : list EmailRow) :
  find p l = None <-> List.filter p l = [].
Proof.
  induction l as [|x l IH]; simpl; [tauto|].
  destruct (p x); [split; discriminate|exact IH].
Qed.

Lemma find_in_filter (p q : EmailRow -> bool) (l : list EmailRow) :
  (forall x, p x = true -> q x = true) ->
  find p (List.filter q l) = find p l.
Proof.
  intros Hpq. induction l as [|x l IH]; simpl; [reflexivity|].
  destruct (p x) eqn:Hp.
  - rewrite (Hpq x Hp). simpl. rewrite Hp. reflexivity.
  - destruct (q x); simpl; [rewrite Hp|]; exact IH.
Qed.

Lemma find_excluded (p q : EmailRow -> bool) (l : list EmailRow) :
  (forall x, p x = true -> q x = false) ->
  find p (List.filter q l) = None.
Proof.
  intros Hpq. induction l as [|x l IH]; simpl; [reflexivity|].
  destruct (q x) eqn:Hq; [|exact IH].
  simpl. destruct (p x) eqn:Hp; [|exact IH].
  rewrite (Hpq x Hp) in Hq. discriminate.
Qed.

Lemma filter_one_id (rows : list EmailRow) (r : EmailRow) (id : Z) :
  NoDup (map e_id rows) ->
  find (fun x => Z.eqb (e_id x) id) rows = Some r ->
  List.filter (fun x => Z.eqb (e_id x) id) rows = [r].
Proof.
  induction rows as [|x rows IH]; simpl; intros Hnd Hfind; [discriminate|].
  apply NoDup_cons in Hnd as [Hx Hnd].
  destruct (Z.eqb_spec (e_id x) id) as [Heq|Hne].
  - inversion Hfind; subst x. f_equal.
    apply list_filter_none, List.Forall_forall. intros y Hy.
    apply Z.eqb_neq. intros Hy'. apply Hx.
    assert (Hxy : e_id r = e_id y) by congruence. rewrite Hxy.
    apply list_elem_of_In, in_map, Hy.
  - apply IH; assumption.
Qed.

Lemma DeleteEmail_cases :
  forall (s : SQLiteStorage) (id : Z),
    store_reachable s ->
    (GetEmail s id = Err ErrNotFound -> DeleteEmail s id = (Err ErrNotFound, s)) /\
    (forall e, GetEmail s id = Ok e ->
       exists s', DeleteEmail s id = (Ok tt, s') /\
         GetEmail s' id = Err ErrNotFound /\
         (forall j, j <> id -> GetEmail s' j = GetEmail s j) /\
         GetEmailCount s' = (GetEmailCount s - 1)%Z).
Proof.
  intros s id Hr.
  destruct (store_reachable_inv s Hr) as ((Hids & _) & Hatt & Hfk & _).
  split.
  - unfold GetEmail. destruct (find _ _) eqn:Hfind; [discriminate|]. intros _.
    unfold DeleteEmail. rewrite delete_emails_none; [reflexivity|].
    apply find_none_filter in Hfind.
    apply List.Forall_forall. intros x Hx.
    destruct (Z.eqb (e_id x) id) eqn:E; [|reflexivity].
    assert (Hin : In x (List.filter (fun r => Z.eqb (e_id r) id) (emails (db s))))
      by (apply filter_In; auto).
    rewrite Hfind in Hin. destruct Hin.
  - intros e. unfold GetEmail.
    destruct (find _ _) as [r|] eqn:Hfind; [|discriminate]. intros _.
    pose proof (filter_one_id _ r id (StronglySorted_lt_NoDup _ Hids) Hfind) as Hone.
    unfold DeleteEmail, delete_emails. rewrite Hone, Hfk. simpl.
    eexists. split; [reflexivity|]. simpl. split; [|split].
    + rewrite find_excluded; [reflexivity|]. intros x ->. reflexivity.
    + intros j Hj. rewrite find_in_filter; [reflexivity|].
      intros x Hx. apply Z.eqb_eq in Hx. apply negb_true_iff, Z.eqb_neq. congruence.
    + unfold GetEmailCount. simpl.
      pose proof (filter_length (fun x => Z.eqb (e_id x) id) (emails (db s))) as Hlen.
      rewrite Hone in Hlen. simpl in Hlen. lia.
Qed.


(** X5: [DeleteEmail] on a reachable store.  For an id that is not
    stored it answers not-found and changes nothing.  For a stored id
    it succeeds, the message is no longer found, every other id reads
    as before, and the count of messages drops by one. *)
Theorem DeleteEmail_removes_one :
  forall (s : SQLiteStorage) (id : Z),
    store_reachable s ->
    (GetEmail s id = Err ErrNotFound -> DeleteEmail s id = (Err ErrNotFound, s)) /\
    (forall e, GetEmail s id = Ok e ->
       exists s', DeleteEmail s id = (Ok tt, s') /\
         GetEmail s' id = Err ErrNotFound /\
         (forall j, j <> id -> GetEmail s' j = GetEmail s j) /\
         GetEmailCount s' = (GetEmailCount s - 1)%Z).
Proof. exact DeleteEmail_cases. Qed.

Lemma DeleteEmail_removes_one_witness :
  store_reachable (snd (SaveEmail NoFault (NewSQLiteStorage None true) example_email)) /\
  DeleteEmail (snd (SaveEmail NoFault (NewSQLiteStorage None true) example_email)) 7
    = (Err ErrNotFound, snd (SaveEmail NoFault (NewSQLiteStorage None true) example_email)).
Proof.
  assert (Hr : store_reachable
                 (snd (SaveEmail NoFault (NewSQLiteStorage None true) example_email)))
    by (apply reach_save, reach_open).
  split; [exact Hr|].
  exact (proj1 (DeleteEmail_removes_one _ 7 Hr) eq_refl).
Defined.


(* ----------------------------------------------------------------- *)
(** ** Pages *)

Lemma firstn_add {A : Type} (n m : nat) (l : list A) :
  firstn (n + m) l = firstn n l ++ firstn m (skipn n l).
Proof.
  revert l. induction n as [|n IH]; intros l; simpl; [reflexivity|].
  destruct l as [|x l]; simpl.
  - rewrite firstn_nil. reflexivity.
  - rewrite IH. reflexivity.
Qed.

Lemma skipn_add {A : Type} (n m : nat) (l : list A) :
  skipn (n + m) l = skipn m (skipn n l).
Proof.
  revert l. induction n as [|n IH]; intros l; simpl; [reflexivity|].
  destruct l as [|x l]; simpl; [rewrite skipn_nil; reflexivity|apply IH].
Qed.

Lemma limit_offset_length {A : Type} (limit offset : Z) (l : list A) :
  (0 <= limit)%Z -> (0 <= offset)%Z ->
  Z.of_nat (length (limit_offset limit offset l)) =
    Z.min limit (Z.max 0 (Z.of_nat (length l) - offset)).
Proof.
  intros Hl Ho. unfold limit_offset.
  destruct (Z.ltb_spec limit 0); [lia|].
  rewrite length_firstn, length_skipn. lia.
Qed.

Lemma ListEmails_length (s : SQLiteStorage) (f : option EmailFilter) (limit offset : Z) :
  (0 <= limit)%Z -> (0 <= offset)%Z ->
  Z.of_nat (length (Emails (ListEmails s f limit offset))) =
    Z.min limit (Z.max 0 (Total (ListEmails s f limit offset) - offset)).
Proof.
  intros Hl Ho. unfold ListEmails. simpl.
  rewrite length_map, (limit_offset_length _ _ _ Hl Ho).
  rewrite (Permutation_length (order_by_received_at_desc_perm _)). reflexivity.
Qed.

(** X7: the pages of [ListEmails].  [Total] is the number of messages
    that match the filter and does not depend on the limit and offset;
    for a limit and an offset that are not negative the page holds
    [min limit (max 0 (Total - offset))] messages, so it is empty once
    the offset reaches [Total]. *)
Theorem ListEmails_page_size :
  forall (s : SQLiteStorage) (f : option EmailFilter) (limit offset : Z),
    (0 <= limit)%Z -> (0 <= offset)%Z ->
    Total (ListEmails s f limit offset) =
      Z.of_nat (length (List.filter (filter_matches f) (emails (db s)))) /\
    Z.of_nat (length (Emails (ListEmails s f limit offset))) =
      Z.min limit (Z.max 0 (Total (ListEmails s f limit offset) - offset)) /\
    ((Total (ListEmails s f limit offset) <= offset)%Z ->
       Emails (ListEmails s f limit offset) = []).
Proof.
  intros s f limit offset Hl Ho.
  pose proof (ListEmails_length s f limit offset Hl Ho) as Hlen.
  split; [reflexivity|]. split; [exact Hlen|].
  intros Hbeyond. apply length_zero_iff_nil. lia.
Qed.

Lemma ListEmails_page_size_witness :
  (0 <= 1)%Z /\ (0 <= 2)%Z /\
  Total (ListEmails (NewSQLiteStorage (Some tie_db) true) None 1 2) = 2%Z /\
  Emails (ListEmails (NewSQLiteStorage (Some tie_db) true) None 1 2) = [].
Proof.
  assert (H1 : (0 <= 1)%Z) by lia. assert (H2 : (0 <= 2)%Z) by lia.
  split; [exact H1|]. split; [exact H2|]. split; [reflexivity|].
  apply (ListEmails_page_size (NewSQLiteStorage (Some tie_db) true) None 1 2 H1 H2).
  simpl. lia.
Defined.

(** X8: consecutive pages of [ListEmails] join: the page of [n] messages
    at an offset followed by the page of [m] messages at that offset
    plus [n] is the page of [n + m] messages at the offset. *)
Theorem ListEmails_pages_join :
  forall (s : SQLiteStorage) (f : option EmailFilter) (n m offset : Z),
    (0 <= n)%Z -> (0 <= m)%Z -> (0 <= offset)%Z ->
    Emails (ListEmails s f n offset) ++ Emails (ListEmails s f m (offset + n)) =
      Emails (ListEmails s f (n + m) offset).
Proof.
  intros s f n m offset Hn Hm Ho. unfold ListEmails, limit_offset. simpl.
  destruct (Z.ltb_spec n 0); [lia|].
  destruct (Z.ltb_spec m 0); [lia|].
  destruct (Z.ltb_spec (n + m) 0); [lia|].
  rewrite <- map_app. f_equal.
  rewrite (Z2Nat.inj_add offset n Ho Hn), (Z2Nat.inj_add n m Hn Hm).
  rewrite skipn_add, firstn_add. reflexivity.
Qed.

Lemma ListEmails_pages_join_witness :
  (0 <= 1)%Z /\
  map ID (Emails (ListEmails (NewSQLiteStorage (Some tie_db) true) None 1 0) ++
          Emails (ListEmails (NewSQLiteStorage (Some tie_db) true) None 1 (0 + 1)))
    = [1; 2]%Z.
Proof.
  assert (H1 : (0 <= 1)%Z) by lia. assert (H0 : (0 <= 0)%Z) by lia.
  split; [exact H1|].
  rewrite (ListEmails_pages_join (NewSQLiteStorage (Some tie_db) true) None 1 1 0 H1 H1 H0).
  reflexivity.
Defined.

(* ----------------------------------------------------------------- *)
(** ** Filters *)




Lemma like_empty_query (t : string) : like ("%" +:+ "" +:+ "%") t = true.
Proof.
  change ("%" +:+ "" +:+ "%") with (String "%" "%").
  induction t as [|c t IH].
  - reflexivity.
  - rewrite like_percent, like_only_percent. reflexivity.
Qed.

(** X10: at the storage the empty query is not rejected: in fallback
    mode [SearchEmails] with the empty query returns what [ListEmails]
    returns without a filter, every message. *)
Theorem SearchEmails_empty_query_lists_all :
  forall (fts5_match : string -> option (EmailRow -> bool))
         (s : SQLiteStorage) (limit offset : Z),
    hasFTS5 s = false ->
    SearchEmails fts5_match s "" limit offset = Ok (ListEmails s None limit offset) /\
    Total (ListEmails s None limit offset) = GetEmailCount s.
Proof.
  intros fts5_match s limit offset Hmode. unfold SearchEmails, ListEmails, GetEmailCount.
  rewrite Hmode.
  rewrite (list_filter_all (like_search "")).
  2:{ apply List.Forall_forall. intros r _. unfold like_search.
      rewrite like_empty_query. reflexivity. }
  rewrite (list_filter_all (filter_matches None)).
  2:{ apply List.Forall_forall. reflexivity. }
  split; reflexivity.
Qed.

Lemma SearchEmails_empty_query_lists_all_witness :
  hasFTS5 (NewSQLiteStorage (Some tie_db) false) = false /\
  SearchEmails (fun _ => None) (NewSQLiteStorage (Some tie_db) false) "" 1 0 =
    Ok (ListEmails (NewSQLiteStorage (Some tie_db) false) None 1 0).
Proof.
  split; [reflexivity|].
  exact (proj1 (SearchEmails_empty_query_lists_all (fun _ => None)
                  (NewSQLiteStorage (Some tie_db) false) 1 0 eq_refl)).
Defined.

(* ----------------------------------------------------------------- *)
(** ** The other handlers *)







Lemma publish_queue (h : WebSocketHub) (m : WebSocketMessage) :
  clients (publish h m) = clients h /\
  closed (publish h m) = closed h /\
  next_client (publish h m) = next_client h /\
  (length (broadcast h) < broadcast_cap -> broadcast (publish h m) = broadcast h ++ [m]) /\
  (broadcast_cap <= length (broadcast h) -> publish h m = h).
Proof.
  unfold publish, Broadcast, select_default, chan_send.
  destruct (Nat.ltb_spec (length (broadcast h)) broadcast_cap); simpl;
    repeat split; try reflexivity; intros; lia.
Qed.

(** X13: [handleDeleteEmail] on a reachable store, for a route variable
    that is a number other than 0.  When no message has the id, the
    reply is [NOT_FOUND] and neither the store nor the hub changes.
    When a message has it, the reply is a success, the message is gone
    ([handleGetEmail] then answers [NOT_FOUND]), and the event
    [email.deleted] is put at the end of the broadcast channel, unless
    the channel already holds 256 events, in which case the event is
    lost and the hub is unchanged. *)
Theorem handleDeleteEmail_store_and_hub :
  forall (json_int64 : Z -> string) (store : SQLiteStorage) (h : WebSocketHub)
         (r : Request),
    store_reachable store ->
    parseIDParam r <> 0%Z ->
    (GetEmail store (parseIDParam r) = Err ErrNotFound ->
       handleDeleteEmail json_int64 store h r =
         (ReplyError 404 "NOT_FOUND" "Email not found", store, h)) /\
    (forall e, GetEmail store (parseIDParam r) = Ok e ->
       exists store' h',
         handleDeleteEmail json_int64 store h r =
           (ReplySuccess (DataDeleted (parseIDParam r)), store', h') /\
         handleGetEmail store' r = ReplyError 404 "NOT_FOUND" "Email not found" /\
         clients h' = clients h /\
         (length (broadcast h) < broadcast_cap ->
            broadcast h' = broadcast h ++
              [{| MsgType := "email.deleted";
                  MsgData := [("id", json_int64 (parseIDParam r))] |}]) /\
         (broadcast_cap <= length (broadcast h) -> h' = h)).
Proof.
  intros json_int64 store h r Hr Hid.
  destruct (DeleteEmail_cases store (parseIDParam r) Hr) as [Hnone Hsome].
  unfold handleDeleteEmail. apply Z.eqb_neq in Hid. rewrite Hid. split.
  - intros Hget. rewrite (Hnone Hget). reflexivity.
  - intros e Hget. destruct (Hsome e Hget) as (store' & Hdel & Hgone & _).
    rewrite Hdel. do 2 eexists. split; [reflexivity|].
    split.
    + unfold handleGetEmail. rewrite Hid, Hgone. reflexivity.
    + pose proof (publish_queue h {| MsgType := "email.deleted";
                                     MsgData := [("id", json_int64 (parseIDParam r))] |})
        as (Hc & _ & _ & Hroom & Hfull).
      split; [exact Hc|]. split; assumption.
Qed.

Lemma handleDeleteEmail_store_and_hub_witness :
  store_reachable (NewSQLiteStorage None true) /\
  parseIDParam {| query := []; vars := [("id", "5")] |} <> 0%Z /\
  handleDeleteEmail (fun _ => "5") (NewSQLiteStorage None true) NewWebSocketHub
      {| query := []; vars := [("id", "5")] |} =
    (ReplyError 404 "NOT_FOUND" "Email not found",
     NewSQLiteStorage None true, NewWebSocketHub).
Proof.
  assert (Hid : parseIDParam {| query := []; vars := [("id", "5")] |} <> 0%Z)
    by (vm_compute; discriminate).
  split; [apply reach_open|]. split; [exact Hid|].
  exact (proj1 (handleDeleteEmail_store_and_hub (fun _ => "5") (NewSQLiteStorage None true)
                  NewWebSocketHub {| query := []; vars := [("id", "5")] |}
                  (reach_open true) Hid) eq_refl).
Defined.

Lemma limit_offset_nil {A : Type} (limit offset : Z) :
  limit_offset limit offset (@nil A) = [].
Proof.
  unfold limit_offset. rewrite skipn_nil.
  destruct (Z.ltb limit 0); [reflexivity|apply firstn_nil].
Qed.

(** X14: [handleDeleteAllEmails] answers with a success and leaves a
    store without messages: the count is 0, every id is not found, every
    list is empty with total 0; the sequence of ids is kept, so later
    messages get new ids.  The event [emails.cleared] is put at the end
    of the broadcast channel when it has room. *)
Theorem handleDeleteAllEmails_clears :
  forall (store : SQLiteStorage) (h : WebSocketHub),
    exists store' h',
      handleDeleteAllEmails store h =
        (ReplySuccess (DataMessage "All emails deleted"), store', h') /\
      GetEmailCount store' = 0%Z /\
      (forall id, GetEmail store' id = Err ErrNotFound) /\
      (forall f limit offset,
         ListEmails store' f limit offset = {| Emails := []; Total := 0 |}) /\
      emails_seq (db store') = emails_seq (db store) /\
      (length (broadcast h) < broadcast_cap ->
         broadcast h' = broadcast h ++ [{| MsgType := "emails.cleared"; MsgData := [] |}]).
Proof.
  intros store h. unfold handleDeleteAllEmails.
  do 2 eexists. split; [reflexivity|].
  assert (Hempty : emails (db (DeleteAllEmails store)) = []).
  { unfold DeleteAllEmails, delete_emails. simpl.
    apply list_filter_none, List.Forall_forall. reflexivity. }
  split; [unfold GetEmailCount; rewrite Hempty; reflexivity|].
  split; [intros id; unfold GetEmail; rewrite Hempty; reflexivity|].
  split.
  - intros f limit offset. unfold ListEmails. rewrite Hempty. simpl.
    rewrite limit_offset_nil. reflexivity.
  - split; [reflexivity|].
    apply (publish_queue h {| MsgType := "emails.cleared"; MsgData := [] |}).
Qed.


(* ----------------------------------------------------------------- *)
(** ** Middleware *)

(** X16: the middleware chain with authentication enabled.  A request
    with method OPTIONS is answered 200 by the CORS middleware, whatever
    its path and credentials.  Any other request reaches the handler
    exactly when its path is /api/health or /ws or its credentials are
    the configured user name and password; otherwise it is answered 401
    [UNAUTHORIZED].  Every answer carries the CORS headers. *)
Theorem middleware_chain_auth :
  forall (R : Type) (username password : string)
         (handler : HttpRequest -> Written R) (r : HttpRequest),
    (Method r = "OPTIONS" ->
       middleware_chain true username password handler r =
         ByMiddleware cors_headers 200 None) /\
    (Method r <> "OPTIONS" ->
       (Path r = "/api/health" \/ Path r = "/ws" \/
        basic_auth r = Some (username, password)) ->
       middleware_chain true username password handler r =
         set_headers cors_headers (handler r)) /\
    (Method r <> "OPTIONS" ->
       Path r <> "/api/health" -> Path r <> "/ws" ->
       basic_auth r <> Some (username, password) ->
       exists message,
         middleware_chain true username password handler r =
           ByMiddleware (cors_headers ++ www_authenticate) 401
             (Some ("UNAUTHORIZED", message))).
Proof.
  intros R username password handler r.
  unfold middleware_chain, corsMiddleware, authMiddleware.
  split; [|split].
  - intros ->. reflexivity.
  - intros Hm Hpass. apply String.eqb_neq in Hm. rewrite Hm.
    destruct (String.eqb_spec (Path r) "/api/health"); [reflexivity|].
    destruct (String.eqb_spec (Path r) "/ws"); [reflexivity|]. simpl.
    destruct Hpass as [Hp|[Hp|Hp]]; try contradiction.
    rewrite Hp, !String.eqb_refl. reflexivity.
  - intros Hm Hp1 Hp2 Hcred.
    apply String.eqb_neq in Hm, Hp1, Hp2. rewrite Hm, Hp1, Hp2. simpl.
    destruct (basic_auth r) as [[u p]|]; [|eexists; reflexivity].
    destruct (String.eqb_spec u username) as [->|Hu];
      [destruct (String.eqb_spec p password) as [->|Hpw]|]; simpl.
    + destruct Hcred. reflexivity.
    + eexists; reflexivity.
    + eexists; reflexivity.
Qed.

(* ----------------------------------------------------------------- *)
(** ** The parts of a message, again *)

(** Induction on an entity with the property at hand for its parts. *)
Lemma Entity_parts_ind (P : Entity -> Prop) :
  (forall ct cd enc body parts perr,
      Forall P parts -> P (mkEntity ct cd enc body parts perr)) ->
  forall e, P e.
Proof.
  intros H.
  refine (fix IH (e : Entity) : P e :=
            match e with
            | mkEntity ct cd enc body parts perr =>
                H ct cd enc body parts perr
                  ((fix all (ps : list Entity) : Forall P ps :=
                      match ps with
                      | [] => @List.Forall_nil _ P
                      | p :: ps' => @List.Forall_cons _ P p ps' (IH p) (all ps')
                      end) parts)
            end).
Qed.

(** [parsePart] by cases, with the loop over the parts by its name. *)
Lemma parsePart_cases (lib : MailLib) (entity : Entity) (email : Email) :
  parsePart lib entity email =
    match entity with
    | mkEntity _ _ encoding body parts parts_err =>
        if entity_isAttachment entity then
          match body with
          | None => Err (ErrOther "read")
          | Some _ => Ok ([entity_attachment lib entity], email)
          end
        else if HasPrefix (entity_mediaType entity) "text/" then
          match body with
          | None => Err (ErrOther "read")
          | Some data =>
              let text := string_of_list_byte (decodeContent lib data encoding) in
              if String.eqb (entity_mediaType entity) "text/plain"
              then Ok ([], set_BodyPlain email text)
              else if String.eqb (entity_mediaType entity) "text/html"
              then Ok ([], set_BodyHTML email text)
              else Ok ([], email)
          end
        else if HasPrefix (entity_mediaType entity) "multipart/" then
          parse_parts lib parts_err parts [] email
        else Ok ([], email)
    end.
Proof.
  destruct entity as [[[mediaType params]|] [[disposition dispParams]|] encoding body parts perr];
    simpl; unfold isAttachment;
    repeat match goal with
           | |- context [if ?b then _ else _] => destruct b eqn:?
           | |- context [match ?o with Some _ => _ | None => _ end] => destruct o eqn:?
           end; try reflexivity; try discriminate.
Qed.

Lemma bodies_only_refl (email : Email) : bodies_only email email.
Proof.
  exists (BodyPlain email), (BodyHTML email). destruct email. reflexivity.
Qed.

Lemma bodies_only_trans (a b c : Email) :
  bodies_only a b -> bodies_only b c -> bodies_only a c.
Proof.
  intros (p1 & h1 & ->) (p2 & h2 & ->). exists p2, h2. reflexivity.
Qed.

Lemma bodies_only_plain (email : Email) (text : string) :
  bodies_only email (set_BodyPlain email text).
Proof. exists text, (BodyHTML email). destruct email. reflexivity. Qed.

Lemma bodies_only_html (email : Email) (text : string) :
  bodies_only email (set_BodyHTML email text).
Proof. exists (BodyPlain email), text. destruct email. reflexivity. Qed.

Lemma parse_parts_bodies_only (lib : MailLib) (perr : bool) (ps : list Entity) :
  Forall (fun e => forall email atts email',
            parsePart lib e email = Ok (atts, email') -> bodies_only email email') ps ->
  forall acc email atts email',
    parse_parts lib perr ps acc email = Ok (atts, email') -> bodies_only email email'.
Proof.
  induction 1 as [|p ps Hp Hps IH]; intros acc email atts email'; simpl.
  - destruct perr; intros H; inversion H; subst. apply bodies_only_refl.
  - destruct (parsePart lib p email) as [[a e1]|err] eqn:Hpart; [|discriminate].
    intros Hrest. eapply bodies_only_trans; [eapply Hp, Hpart|eapply IH, Hrest].
Qed.

Lemma parsePart_bodies_only (lib : MailLib) (entity : Entity) :
  forall email atts email',
    parsePart lib entity email = Ok (atts, email') -> bodies_only email email'.
Proof.
  induction entity as [ct cd enc body parts perr IH] using Entity_parts_ind.
  intros email atts email'. rewrite parsePart_cases.
  destruct (entity_isAttachment _).
  - destruct body; intros H; inversion H; subst. apply bodies_only_refl.
  - destruct (HasPrefix _ "text/").
    + destruct body; [|discriminate]. cbv zeta.
      destruct (String.eqb _ "text/plain");
        [|destruct (String.eqb _ "text/html")];
        intros H; inversion H; subst;
        [apply bodies_only_plain|apply bodies_only_html|apply bodies_only_refl].
    + destruct (HasPrefix _ "multipart/").
      * apply (parse_parts_bodies_only lib perr parts IH).
      * intros H; inversion H; subst. apply bodies_only_refl.
Qed.

Lemma parseBody_cases (lib : MailLib) (entity : Entity) (email : Email) :
  parseBody lib entity email =
    match entity with
    | mkEntity _ _ _ _ parts parts_err =>
        if HasPrefix (entity_mediaType entity) "multipart/"
        then parse_parts lib parts_err parts [] email
        else parsePart lib entity email
    end.
Proof. destruct entity as [ct cd enc body parts perr]. reflexivity. Qed.

Lemma parseBody_bodies_only (lib : MailLib) (entity : Entity) :
  forall email atts email',
    parseBody lib entity email = Ok (atts, email') -> bodies_only email email'.
Proof.
  intros email atts email'. rewrite parseBody_cases.
  destruct entity as [ct cd enc body parts perr].
  destruct (HasPrefix _ _).
  - apply (parse_parts_bodies_only lib perr parts).
    apply List.Forall_forall. intros p _. apply parsePart_bodies_only.
  - apply parsePart_bodies_only.
Qed.

(** X17: decoding the body of a message changes nothing but the two
    bodies: when [parsePart] or [parseBody] succeeds, the email it
    returns is the email it was given with, at most, another plain body
    and another HTML body; sender, recipients, subject, headers, size
    and the other fields are as before. *)
Theorem body_parsing_touches_bodies_only :
  forall (lib : MailLib) (entity : Entity) (email email' : Email)
         (atts : list Attachment),
    (parsePart lib entity email = Ok (atts, email') ->
       exists plain html, email' = set_BodyHTML (set_BodyPlain email plain) html) /\
    (parseBody lib entity email = Ok (atts, email') ->
       exists plain html, email' = set_BodyHTML (set_BodyPlain email plain) html).
Proof.
  intros lib entity email email' atts. split.
  - apply parsePart_bodies_only.
  - apply parseBody_bodies_only.
Qed.

(** X18: what [Parse] returns.  When it succeeds the library has read a
    header block; the size of the email is the length of the raw data;
    its id is 0 and it is unread; its headers are the header block, and
    message id, sender, recipients and subject are those that
    [parseHeaders] took from it, whatever the body contains; and its
    attachment list has one entry for each attachment that the body
    parsing returned, in order. *)
Theorem Parse_result :
  forall (lib : MailLib) (data : list Byte.byte) (email : Email),
    Parse lib data = Ok email ->
    exists header entity atts parsed,
      mail_ReadMessage lib data = Some header /\
      message_Read lib data = Some entity /\
      parseBody lib entity (parseHeaders lib header) = Ok (atts, parsed) /\
      Size email = Z.of_nat (length data) /\
      ID email = 0%Z /\ Read email = false /\
      Headers email = header /\
      MessageID email = header_get "Message-ID" header /\
      From email = From (parseHeaders lib header) /\
      To email = To (parseHeaders lib header) /\
      CC email = CC (parseHeaders lib header) /\
      BCC email = BCC (parseHeaders lib header) /\
      Subject email = decodeHeader lib (header_get "Subject" header) /\
      BodyPlain email = BodyPlain parsed /\ BodyHTML email = BodyHTML parsed /\
      Attachments email = map Meta atts.
Proof.
  intros lib data email. unfold Parse.
  destruct (mail_ReadMessage lib data) as [header|]; [|discriminate].
  destruct (message_Read lib data) as [entity|]; [|discriminate].
  destruct (parseBody lib entity (parseHeaders lib header)) as [[atts parsed]|e] eqn:Hbody;
    [|discriminate].
  intros H. inversion H; subst; clear H.
  exists header, entity, atts, parsed.
  destruct (parseBody_bodies_only lib entity _ _ _ Hbody)
    as (plain & html & Hparsed).
  split; [reflexivity|]. split; [reflexivity|]. split; [exact Hbody|].
  rewrite Hparsed. simpl. repeat split; reflexivity.
Qed.

Lemma Parse_result_witness :
  exists email,
    Parse headerless_lib [Byte.x68; Byte.x69] = Ok email /\
    Size email = 2%Z /\ From email = "" /\ Attachments email = [].
Proof.
  eexists. split; [reflexivity|].
  destruct (Parse_result headerless_lib [Byte.x68; Byte.x69] _ eq_refl)
    as (header & entity & atts & parsed & Hh & He & Hb & Hsize & _ & _ & _ & _ & Hfrom & _).
  split; [exact Hsize|]. split; reflexivity.
Defined.

Lemma parse_parts_attachments (lib : MailLib) (perr : bool) (ps : list Entity) :
  Forall (fun e => forall email atts email',
            parsePart lib e email = Ok (atts, email') ->
            atts = map (entity_attachment lib) (attachment_parts e)) ps ->
  forall acc email atts email',
    parse_parts lib perr ps acc email = Ok (atts, email') ->
    atts = acc ++ map (entity_attachment lib) (flat_map attachment_parts ps).
Proof.
  induction 1 as [|p ps Hp Hps IH]; intros acc email atts email'; simpl.
  - destruct perr; intros H; inversion H; subst. rewrite app_nil_r. reflexivity.
  - destruct (parsePart lib p email) as [[a e1]|err] eqn:Hpart; [|discriminate].
    intros Hrest. rewrite (IH _ _ _ _ Hrest), (Hp _ _ _ Hpart).
    rewrite map_app, app_assoc. reflexivity.
Qed.

Lemma attachment_parts_cases (entity : Entity) :
  attachment_parts entity =
    if entity_isAttachment entity then [entity]
    else
      match entity with
      | mkEntity _ _ _ _ parts _ =>
          if HasPrefix (entity_mediaType entity) "text/" then []
          else if HasPrefix (entity_mediaType entity) "multipart/" then
            flat_map attachment_parts parts
          else []
      end.
Proof. destruct entity. reflexivity. Qed.

Lemma parsePart_attachments (lib : MailLib) (entity : Entity) :
  forall email atts email',
    parsePart lib entity email = Ok (atts, email') ->
    atts = map (entity_attachment lib) (attachment_parts entity).
Proof.
  induction entity as [ct cd enc body parts perr IH] using Entity_parts_ind.
  intros email atts email'. rewrite parsePart_cases, attachment_parts_cases.
  destruct (entity_isAttachment _).
  - destruct body; intros H; inversion H; subst. reflexivity.
  - destruct (HasPrefix _ "text/").
    + destruct body; [|discriminate]. cbv zeta.
      destruct (String.eqb _ "text/plain");
        [|destruct (String.eqb _ "text/html")];
        intros H; inversion H; subst; reflexivity.
    + destruct (HasPrefix _ "multipart/").
      * intros H. apply (parse_parts_attachments lib perr parts IH) in H. exact H.
      * intros H; inversion H; subst. reflexivity.
Qed.

Lemma HasPrefix_cons (c p : ascii) (s prefix : string) :
  HasPrefix (String c s) (String p prefix) = Ascii.eqb p c && HasPrefix s prefix.
Proof. reflexivity. Qed.

(** A media type of a multipart container is no text type. *)
Lemma multipart_not_text (s : string) :
  HasPrefix s "multipart/" = true -> HasPrefix s "text/" = false.
Proof.
  destruct s as [|c s]; [discriminate|].
  change "multipart/" with (String "m" "ultipart/").
  change "text/" with (String "t" "ext/").
  rewrite !HasPrefix_cons. intros H.
  apply andb_true_iff in H as [H _]. apply Ascii.eqb_eq in H. subst c. reflexivity.
Qed.

(** X19: the attachments of a message are its attachment-disposed parts
    in the order of the document.  When [parsePart] succeeds, the list
    it returns holds, in document order, one attachment for each part
    with disposition [attachment] or [inline] with a file name that is
    reached through multipart containers only: parts inside an
    attachment-disposed container are not visited, and text parts and
    parts of other types give none.  [parseBody] returns the same list
    for every message that is not itself attachment-disposed. *)
Theorem attachments_in_document_order :
  forall (lib : MailLib) (entity : Entity) (email email' : Email)
         (atts : list Attachment),
    (parsePart lib entity email = Ok (atts, email') ->
       atts = map (entity_attachment lib) (attachment_parts entity)) /\
    (entity_isAttachment entity = false ->
       parseBody lib entity email = parsePart lib entity email).
Proof.
  intros lib entity email email' atts. split.
  - apply parsePart_attachments.
  - intros Hno. rewrite parseBody_cases.
    destruct entity as [ct cd enc body parts perr].
    destruct (HasPrefix _ "multipart/") eqn:Hmulti; [|reflexivity].
    rewrite parsePart_cases, Hno, (multipart_not_text _ Hmulti), Hmulti. reflexivity.
Qed.

Lemma parse_parts_last_plain (lib : MailLib) (perr : bool) (ps : list Entity)
    (last : Entity) (text : string) :
  (forall email, parsePart lib last email = Ok ([], set_BodyPlain email text)) ->
  forall acc email atts email',
    parse_parts lib perr (ps ++ [last]) acc email = Ok (atts, email') ->
    BodyPlain email' = text.
Proof.
  intros Hlast. induction ps as [|p ps IH]; intros acc email atts email'; simpl.
  - rewrite Hlast. destruct perr; intros H; inversion H; subst. reflexivity.
  - destruct (parsePart lib p email) as [[a e1]|err]; [|discriminate].
    apply IH.
Qed.

Lemma parse_parts_last_html (lib : MailLib) (perr : bool) (ps : list Entity)
    (last : Entity) (text : string) :
  (forall email, parsePart lib last email = Ok ([], set_BodyHTML email text)) ->
  forall acc email atts email',
    parse_parts lib perr (ps ++ [last]) acc email = Ok (atts, email') ->
    BodyHTML email' = text.
Proof.
  intros Hlast. induction ps as [|p ps IH]; intros acc email atts email'; simpl.
  - rewrite Hlast. destruct perr; intros H; inversion H; subst. reflexivity.
  - destruct (parsePart lib p email) as [[a e1]|err]; [|discriminate].
    apply IH.
Qed.

(** X20: the last text part wins.  In a multipart container that is not
    attachment-disposed, when the last part is a readable part of type
    [text/plain] without a disposition and the container is parsed, the
    plain body of the email is the decoded text of that last part,
    whatever the parts before it set; likewise for [text/html] and the
    HTML body. *)
Theorem last_text_part_wins :
  forall (lib : MailLib) (ct cd : option (string * list (string * string)))
         (enc : string) (body : option (list Byte.byte)) (ps : list Entity)
         (perr : bool) (params : list (string * string)) (enc_last : string)
         (data : list Byte.byte) (email email' : Email) (atts : list Attachment),
    entity_isAttachment (mkEntity ct cd enc body [] perr) = false ->
    HasPrefix (entity_mediaType (mkEntity ct cd enc body [] perr)) "multipart/" = true ->
    (parsePart lib
       (mkEntity ct cd enc body
          (ps ++ [mkEntity (Some ("text/plain", params)) None enc_last (Some data) [] false])
          perr) email = Ok (atts, email') ->
     BodyPlain email' = string_of_list_byte (decodeContent lib data enc_last)) /\
    (parsePart lib
       (mkEntity ct cd enc body
          (ps ++ [mkEntity (Some ("text/html", params)) None enc_last (Some data) [] false])
          perr) email = Ok (atts, email') ->
     BodyHTML email' = string_of_list_byte (decodeContent lib data enc_last)).
Proof.
  intros lib ct cd enc body ps perr params enc_last data email email' atts Hno Hmulti.
  pose proof (multipart_not_text _ Hmulti) as Htext.
  split; rewrite parsePart_cases;
    change (entity_isAttachment (mkEntity ct cd enc body _ perr))
      with (entity_isAttachment (mkEntity ct cd enc body [] perr));
    change (entity_mediaType (mkEntity ct cd enc body _ perr))
      with (entity_mediaType (mkEntity ct cd enc body [] perr));
    rewrite Hno, Htext, Hmulti.
  - apply parse_parts_last_plain. intros e. reflexivity.
  - apply parse_parts_last_html. intros e. reflexivity.
Qed.

Lemma last_text_part_wins_witness :
  parsePart example_lib
    (mkEntity (Some ("multipart/alternative", [])) None "" None
       ([mkEntity (Some ("text/plain", [])) None "" (Some [Byte.x61]) [] false] ++
        [mkEntity (Some ("text/plain", [])) None "" (Some [Byte.x62]) [] false])
       false) example_email
    = Ok ([], set_BodyPlain example_email "b") /\
  BodyPlain (set_BodyPlain example_email "b") = "b".
Proof.
  split; [reflexivity|].
  exact (proj1 (last_text_part_wins example_lib (Some ("multipart/alternative", [])) None
                  "" None [mkEntity (Some ("text/plain", [])) None "" (Some [Byte.x61]) [] false]
                  false [] "" [Byte.x62] example_email
                  (set_BodyPlain example_email "b") [] eq_refl eq_refl)
               eq_refl).
Defined.

(* ----------------------------------------------------------------- *)
(** ** The hub over several messages *)

Lemma Run_broadcast_step (h : WebSocketHub) (m : WebSocketMessage)
    (rest : list WebSocketMessage) :
  broadcast h = m :: rest ->
  exists h', Run_broadcast h = Done h' /\ broadcast h' = rest /\
    (forall c, clients h' !! c = clients h !! c ≫= deliver m) /\
    (forall c, c ∈ closed h -> c ∈ closed h') /\
    (forall c buf, clients h !! c = Some buf -> deliver m buf = None -> c ∈ closed h') /\
    (forall c, c ∈ closed h' -> clients h !! c = None -> c ∈ closed h).
Proof.
  intros Hb.
  destruct (Run_broadcast_clients h m rest Hb) as (h' & Hrun & Hrest & _ & Hcl & Hclosed).
  exists h'. split; [exact Hrun|]. split; [exact Hrest|]. split; [exact Hcl|].
  split; [|split].
  - intros c Hc. apply Hclosed. left. exact Hc.
  - intros c buf Hbuf Hnone. apply Hclosed. right. eauto.
  - intros c Hc Hnone. apply Hclosed in Hc as [Hc|(buf & Hbuf & _)]; [exact Hc|congruence].
Qed.

Lemma Run_drain_gone (n : nat) (h : WebSocketHub) (c : nat) :
  clients h !! c = None ->
  clients (Run_drain n h) !! c = None /\
  (c ∈ closed h -> c ∈ closed (Run_drain n h)).
Proof.
  revert h. induction n as [|n IH]; intros h Hnone; simpl; [split; auto|].
  destruct (broadcast h) as [|m rest] eqn:Hb.
  - unfold Run_broadcast. rewrite Hb. split; auto.
  - destruct (Run_broadcast_step h m rest Hb) as (h' & -> & _ & Hcl & Hmono & _).
    assert (Hnone' : clients h' !! c = None) by (rewrite Hcl, Hnone; reflexivity).
    destruct (IH h' Hnone') as [H1 H2]. split; [exact H1|]. intros Hc. apply H2, Hmono, Hc.
Qed.

Lemma Run_drain_empties (ms : list WebSocketMessage) :
  forall h, broadcast h = ms -> broadcast (Run_drain (length ms) h) = [].
Proof.
  induction ms as [|m rest IH]; intros h Hb; simpl; [exact Hb|].
  destruct (Run_broadcast_step h m rest Hb) as (h' & -> & Hrest & _).
  apply IH, Hrest.
Qed.

Lemma Run_drain_client (ms : list WebSocketMessage) :
  forall (h : WebSocketHub) (c : nat) (buf : list WebSocketMessage),
    broadcast h = ms ->
    clients h !! c = Some buf ->
    length buf <= send_cap ->
    broadcast (Run_drain (length ms) h) = [] /\
    (length buf + length ms <= send_cap ->
       clients (Run_drain (length ms) h) !! c = Some (buf ++ ms)) /\
    (send_cap < length buf + length ms ->
       clients (Run_drain (length ms) h) !! c = None /\
       c ∈ closed (Run_drain (length ms) h)).
Proof.
  induction ms as [|m rest IH]; intros h c buf Hb Hbuf Hcap; simpl.
  - split; [exact Hb|]. split; [intros _; rewrite app_nil_r; exact Hbuf|intros; lia].
  - destruct (Run_broadcast_step h m rest Hb) as (h' & -> & Hrest & Hcl & _ & Hfull & _).
    destruct (Nat.lt_ge_cases (length buf) send_cap) as [Hroom|Hnoroom].
    + assert (Hbuf' : clients h' !! c = Some (buf ++ [m])).
      { rewrite Hcl, Hbuf. simpl. apply deliver_Some. split; [exact Hroom|reflexivity]. }
      assert (Hcap' : length (buf ++ [m]) <= send_cap)
        by (rewrite length_app; simpl; lia).
      destruct (IH h' c (buf ++ [m]) Hrest Hbuf' Hcap') as (H0 & H1 & H2).
      rewrite length_app in H1, H2. simpl in H1, H2.
      split; [exact H0|]. split.
      * intros Hle. rewrite H1 by lia. rewrite <- app_assoc. reflexivity.
      * intros Hgt. apply H2. lia.
    + assert (Hnone : deliver m buf = None) by (apply deliver_None; exact Hnoroom).
      assert (Hgone : clients h' !! c = None) by (rewrite Hcl, Hbuf; exact Hnone).
      destruct (Run_drain_gone (length rest) h' c Hgone) as [H1 H2].
      split; [apply Run_drain_empties, Hrest|].
      split; [intros; lia|]. intros _. split; [exact H1|].
      apply H2, (Hfull c buf Hbuf Hnone).
Qed.

(** X21: delivery is in publish order and a subscriber that does not
    drain is cut off when its queue overflows.  When the hub delivers
    all the messages waiting in the broadcast channel, a subscriber
    whose queue has room for all of them gets them at the end of its
    queue in the order in which they were waiting; a subscriber whose
    queue has not is removed and its channel closed; and the broadcast
    channel is empty afterwards. *)
Theorem Run_drain_fifo_and_overflow :
  forall (h : WebSocketHub) (c : nat) (buf : list WebSocketMessage),
    clients h !! c = Some buf ->
    length buf <= send_cap ->
    broadcast (Run_drain (length (broadcast h)) h) = [] /\
    (length buf + length (broadcast h) <= send_cap ->
       clients (Run_drain (length (broadcast h)) h) !! c = Some (buf ++ broadcast h)) /\
    (send_cap < length buf + length (broadcast h) ->
       clients (Run_drain (length (broadcast h)) h) !! c = None /\
       c ∈ closed (Run_drain (length (broadcast h)) h)).
Proof.
  intros h c buf Hbuf Hcap.
  exact (Run_drain_client (broadcast h) h c buf eq_refl Hbuf Hcap).
Qed.

Lemma Run_drain_fifo_and_overflow_witness :
  clients (Run_register NewWebSocketHub) !! 0 = Some [] /\
  broadcast (Run_drain (length (broadcast (Run_register NewWebSocketHub)))
               (Run_register NewWebSocketHub)) = [].
Proof.
  assert (Hc : clients (Run_register NewWebSocketHub) !! 0 = Some [])
    by (simpl; apply lookup_insert_eq).
  split; [exact Hc|].
  assert (Hcap : @length WebSocketMessage [] <= send_cap) by (simpl; lia).
  exact (proj1 (Run_drain_fifo_and_overflow (Run_register NewWebSocketHub) 0 [] Hc Hcap)).
Defined.

(** X22: publishing several messages.  [Broadcast] of a list of
    messages puts them at the end of the broadcast channel in order
    until the channel holds 256 messages; the messages after that are
    dropped, and no subscriber is touched. *)
Theorem Broadcast_all_queue :
  forall (ms : list WebSocketMessage) (h : WebSocketHub),
    broadcast (Broadcast_all h ms) =
      broadcast h ++ firstn (broadcast_cap - length (broadcast h)) ms /\
    clients (Broadcast_all h ms) = clients h /\
    closed (Broadcast_all h ms) = closed h.
Proof.
  induction ms as [|m ms IH]; intros h; simpl.
  - rewrite firstn_nil, app_nil_r. repeat split; reflexivity.
  - unfold Broadcast, select_default, chan_send.
    destruct (Nat.ltb_spec (length (broadcast h)) broadcast_cap) as [Hroom|Hfull].
    + destruct (IH {| clients := clients h; closed := closed h;
                      broadcast := broadcast h ++ [m];
                      next_client := next_client h |}) as (Hb & Hc & Hd).
      simpl in Hb, Hc, Hd. rewrite Hb, Hc, Hd. rewrite length_app. simpl.
      split; [|split; reflexivity].
      replace (broadcast_cap - length (broadcast h))
        with (S (broadcast_cap - (length (broadcast h) + 1))) by lia.
      simpl. rewrite <- app_assoc. reflexivity.
    + destruct (IH h) as (Hb & Hc & Hd). rewrite Hb, Hc, Hd.
      replace (broadcast_cap - length (broadcast h)) with 0 by lia.
      simpl. repeat split; reflexivity.
Qed.

(** X23: a channel is closed once.  Unregistering a client twice is
    unregistering it once; and a client that the hub has removed because
    its queue was full is not registered any more, so that its later
    unregistration changes nothing. *)
Theorem Run_unregister_once :
  forall (h : WebSocketHub) (c : nat),
    Run_unregister (Run_unregister h c) c = Run_unregister h c /\
    (forall m rest buf h',
       broadcast h = m :: rest ->
       clients h !! c = Some buf ->
       send_cap <= length buf ->
       Run_broadcast h = Done h' ->
       c ∈ closed h' /\ Run_unregister h' c = h').
Proof.
  intros h c. split.
  - destruct (clients h !! c) as [buf|] eqn:Hc.
    + assert (Hu : Run_unregister h c =
                   {| clients := delete c (clients h); closed := closed h ∪ {[c]};
                      broadcast := broadcast h; next_client := next_client h |})
        by (unfold Run_unregister; rewrite Hc; reflexivity).
      rewrite Hu. unfold Run_unregister. simpl. rewrite lookup_delete_eq. reflexivity.
    + assert (Hu : Run_unregister h c = h)
        by (unfold Run_unregister; rewrite Hc; reflexivity).
      rewrite Hu. exact Hu.
  - intros m rest buf h' Hb Hbuf Hfull Hrun.
    destruct (Run_broadcast_step h m rest Hb) as (h2 & Hrun2 & _ & Hcl & _ & Hclose & _).
    rewrite Hrun in Hrun2. inversion Hrun2; subst h2.
    assert (Hnone : deliver m buf = None) by (apply deliver_None, Hfull).
    split; [exact (Hclose c buf Hbuf Hnone)|].
    unfold Run_unregister. rewrite Hcl, Hbuf. simpl. rewrite Hnone. reflexivity.
Qed.

(* ----------------------------------------------------------------- *)
(** ** From the session to the store and the hub *)



(* ----------------------------------------------------------------- *)
(** ** Retention *)

Lemma DeleteExcessEmails_kept (s : SQLiteStorage) (maxCount : Z) :
  db_wf (db s) ->
  Permutation (emails (db (snd (DeleteExcessEmails s maxCount))))
    (firstn (Z.to_nat maxCount) (order_by_received_at_desc (emails (db s)))).
Proof.
  intros Hwf.
  pose proof (emails_ids_NoDup _ Hwf) as Hnd.
  pose proof (order_by_received_at_desc_perm (emails (db s))) as Hperm.
  unfold DeleteExcessEmails, excess_ids, limit_offset, delete_emails.
  change (Z.ltb (-1) 0) with true. cbv iota. simpl.
  set (k := Z.to_nat maxCount) in *.
  set (o := order_by_received_at_desc (emails (db s))) in *.
  assert (Hsplit := filter_ids_of_suffix (firstn k o) (skipn k o)).
  rewrite firstn_skipn in Hsplit. destruct (Hsplit Hnd) as [_ Hkept].
  pose proof (Permutation_list_filter
    (fun r => negb (existsb (Z.eqb (e_id r)) (map e_id (skipn k o)))) _ _ Hperm) as HP.
  rewrite Hkept in HP. symmetry. exact HP.
Qed.

Lemma DeleteExcessEmails_within (s : SQLiteStorage) (maxCount : Z) :
  (Z.of_nat (length (emails (db s))) <= maxCount)%Z ->
  snd (DeleteExcessEmails s maxCount) = s.
Proof.
  intros Hle. unfold DeleteExcessEmails, excess_ids, limit_offset.
  change (Z.ltb (-1) 0) with true. cbv iota.
  rewrite skipn_all2.
  2:{ rewrite (Permutation_length (order_by_received_at_desc_perm _)). lia. }
  rewrite delete_emails_none; [reflexivity|].
  apply List.Forall_forall. reflexivity.
Qed.

Lemma DeleteOldEmails_none (s : SQLiteStorage) (before : Time) :
  Forall (fun r => (before <= e_received_at r)%Z) (emails (db s)) ->
  snd (DeleteOldEmails s before) = s.
Proof.
  intros H. unfold DeleteOldEmails. rewrite delete_emails_none; [reflexivity|].
  eapply List.Forall_impl; [|exact H]. simpl. intros r Hr. apply Z.ltb_ge, Hr.
Qed.

Lemma cleanup_post (config : RetentionConfig) (now : Time) (s : SQLiteStorage) :
  db_wf (db s) ->
  db_wf (db (cleanup config now s)) /\
  (forall r, In r (emails (db (cleanup config now s))) -> In r (emails (db s))) /\
  ((0 < MaxAge config)%Z ->
     Forall (fun r => (now - MaxAge config <= e_received_at r)%Z)
            (emails (db (cleanup config now s)))) /\
  ((0 < MaxCount config)%Z ->
     (Z.of_nat (length (emails (db (cleanup config now s)))) <= MaxCount config)%Z).
Proof.
  intros Hwf. unfold cleanup.
  set (s1 := if Z.ltb 0 (MaxAge config)
             then snd (DeleteOldEmails s (now - MaxAge config)%Z) else s).
  assert (Hwf1 : db_wf (db s1)).
  { unfold s1. destruct (Z.ltb 0 (MaxAge config)); [apply db_wf_delete_emails|]; exact Hwf. }
  assert (Hsub1 : forall r, In r (emails (db s1)) -> In r (emails (db s))).
  { unfold s1. destruct (Z.ltb 0 (MaxAge config)); [|auto].
    intros r Hr. unfold DeleteOldEmails, delete_emails in Hr. simpl in Hr.
    apply filter_In in Hr. tauto. }
  assert (Hage1 : (0 < MaxAge config)%Z ->
            Forall (fun r => (now - MaxAge config <= e_received_at r)%Z) (emails (db s1))).
  { intros Hpos. unfold s1. apply Z.ltb_lt in Hpos. rewrite Hpos.
    unfold DeleteOldEmails, delete_emails. simpl.
    apply List.Forall_forall. intros r Hr. apply filter_In in Hr as [_ Hr].
    apply negb_true_iff, Z.ltb_ge in Hr. exact Hr. }
  destruct (Z.ltb_spec 0 (MaxCount config)) as [Hcount|Hnocount].
  - pose proof (DeleteExcessEmails_kept s1 (MaxCount config) Hwf1) as Hkept.
    assert (Hsub2 : forall r, In r (emails (db (snd (DeleteExcessEmails s1 (MaxCount config))))) ->
                              In r (emails (db s1))).
    { intros r Hr. unfold DeleteExcessEmails, delete_emails in Hr. simpl in Hr.
      apply filter_In in Hr. tauto. }
    split; [apply db_wf_delete_emails, Hwf1|]. split; [auto|]. split.
    + intros Hpos. apply List.Forall_forall. intros r Hr.
      specialize (Hage1 Hpos). rewrite List.Forall_forall in Hage1. auto.
    + intros _. rewrite (Permutation_length Hkept), length_firstn. lia.
  - split; [exact Hwf1|]. split; [exact Hsub1|]. split; [exact Hage1|]. intros; lia.
Qed.



(** X26: a cleanup is idempotent: on a store that the schema can hold,
    a second cleanup at the same time deletes nothing. *)
Theorem cleanup_idempotent :
  forall (config : RetentionConfig) (now : Time) (s : SQLiteStorage),
    db_wf (db s) ->
    cleanup config now (cleanup config now s) = cleanup config now s.
Proof.
  intros config now s Hwf.
  destruct (cleanup_post config now s Hwf) as (Hwf' & _ & Hage & Hcount).
  unfold cleanup at 1.
  destruct (Z.ltb_spec 0 (MaxAge config)) as [Ha|Ha].
  - rewrite (DeleteOldEmails_none _ _ (Hage Ha)).
    destruct (Z.ltb_spec 0 (MaxCount config)) as [Hc|Hc]; [|reflexivity].
    apply DeleteExcessEmails_within, Hcount, Hc.
  - destruct (Z.ltb_spec 0 (MaxCount config)) as [Hc|Hc]; [|reflexivity].
    apply DeleteExcessEmails_within, Hcount, Hc.
Qed.

Lemma cleanup_idempotent_witness :
  db_wf (db (NewSQLiteStorage (Some tie_db) true)) /\
  cleanup {| Enabled := true; MaxAge := 500; MaxCount := 1; CleanupInterval := Hour |} 2000
    (cleanup {| Enabled := true; MaxAge := 500; MaxCount := 1; CleanupInterval := Hour |} 2000
       (NewSQLiteStorage (Some tie_db) true)) =
  cleanup {| Enabled := true; MaxAge := 500; MaxCount := 1; CleanupInterval := Hour |} 2000
    (NewSQLiteStorage (Some tie_db) true).
Proof.
  split; [exact tie_db_wf|].
  exact (cleanup_idempotent
           {| Enabled := true; MaxAge := 500; MaxCount := 1; CleanupInterval := Hour |}
           2000 (NewSQLiteStorage (Some tie_db) true) tie_db_wf).
Defined.




(* ----------------------------------------------------------------- *)
(** ** Configuration *)

Lemma env_string_idem (env : list (string * string)) (name old : string) :
  env_string env name (env_string env name old) = env_string env name old.
Proof. unfold env_string. destruct (String.eqb _ ""); reflexivity. Qed.

Lemma env_port_idem (env : list (string * string)) (name : string) (old : Z) :
  env_port env name (env_port env name old) = env_port env name old.
Proof.
  unfold env_port. destruct (String.eqb _ ""); [reflexivity|].
  destruct (Atoi _); reflexivity.
Qed.

(** X28: the overrides of the environment.  Applying them twice is
    applying them once; they never change the retention settings or the
    size limit; a variable that is unset or empty changes
    nothing, so that an empty environment leaves the configuration as it
    is; and a port that is no number is ignored. *)
Theorem applyEnvOverrides_properties :
  forall (env : list (string * string)) (cfg : Config),
    applyEnvOverrides env (applyEnvOverrides env cfg) = applyEnvOverrides env cfg /\
    Retention (applyEnvOverrides env cfg) = Retention cfg /\
    MaxMessageSize (SMTP (applyEnvOverrides env cfg)) = MaxMessageSize (SMTP cfg) /\
    applyEnvOverrides [] cfg = cfg /\
    (Atoi (param "GOWEBMAIL_SMTP_PORT" env) = None ->
       SMTP_Port (SMTP (applyEnvOverrides env cfg)) = SMTP_Port (SMTP cfg)).
Proof.
  intros env cfg. split; [|split; [reflexivity|split; [reflexivity|split]]].
  - unfold applyEnvOverrides. simpl.
    rewrite !env_string_idem, !env_port_idem.
    destruct (String.eqb (param "GOWEBMAIL_WEB_AUTH_ENABLED" env) ""); reflexivity.
  - destruct cfg as [[] [] [] [] [? []] []]. reflexivity.
  - intros Hbad. unfold applyEnvOverrides, env_port. simpl. rewrite Hbad.
    destruct (String.eqb _ ""); reflexivity.
Qed.

(** X29: loading the configuration.  Without a path, or when the file
    does not exist, [Load] gives the defaults with the overrides of the
    environment; a file that cannot be read or decoded is an error; and
    a variable of the environment that is set wins over the file: the
    storage path is the variable's value, and authentication is enabled
    exactly when its variable is [true] or [1], any other value turning
    it off. *)
Theorem Load_precedence :
  forall (yaml_Unmarshal : list Byte.byte -> Config -> option Config)
         (path : string) (file : FileRead) (env : list (string * string)),
    Load yaml_Unmarshal "" file env = Some (applyEnvOverrides env Default) /\
    Load yaml_Unmarshal path FileNotExist env = Some (applyEnvOverrides env Default) /\
    (path <> "" -> Load yaml_Unmarshal path FileError env = None) /\
    (forall data, path <> "" -> yaml_Unmarshal data Default = None ->
       Load yaml_Unmarshal path (FileData data) env = None) /\
    (forall cfg, Load yaml_Unmarshal path file env = Some cfg ->
       (param "GOWEBMAIL_STORAGE_PATH" env <> "" ->
          Storage_Path (Storage cfg) = param "GOWEBMAIL_STORAGE_PATH" env) /\
       (param "GOWEBMAIL_WEB_AUTH_ENABLED" env <> "" ->
          (Auth_Enabled (Auth (Web cfg)) = true <->
           param "GOWEBMAIL_WEB_AUTH_ENABLED" env = "true" \/
           param "GOWEBMAIL_WEB_AUTH_ENABLED" env = "1"))).
Proof.
  intros yaml_Unmarshal path file env. split; [reflexivity|]. split; [|split; [|split]].
  - unfold Load. destruct (negb (String.eqb path "")); reflexivity.
  - intros Hpath. unfold Load. apply String.eqb_neq in Hpath. rewrite Hpath. reflexivity.
  - intros data Hpath Hbad. unfold Load. apply String.eqb_neq in Hpath. rewrite Hpath.
    simpl. rewrite Hbad. reflexivity.
  - intros cfg. unfold Load.
    destruct (if negb (String.eqb path "") then loadFromFile yaml_Unmarshal file Default
              else Some Default) as [loaded|]; [|discriminate].
    intros H. inversion H; subst; clear H. simpl. split.
    + intros Hset. unfold env_string. apply String.eqb_neq in Hset. rewrite Hset. reflexivity.
    + intros Hset. apply String.eqb_neq in Hset. rewrite Hset.
      rewrite orb_true_iff, !String.eqb_eq. reflexivity.
Qed.
